(** * ML code reviewer: rule engine of [ml_analyzer/analyzer.py]

    A shallow embedding of the class [MLCodeReviewer] and the properties
    its design document states about it.

    Conventions of the embedding.
    - A Python [str] is a Rocq [string]; every [ascii] stands for one code
      point (U+0000 to U+00FF).  Text with code points above U+00FF is not
      representable here.
    - Python's [ast.parse] and [re.search] are library code, not code of the
      repository.  They are parameters of the development.  The parser
      returns, raises [SyntaxError], or raises something else ([ValueError]
      on a NUL byte before Python 3.12, [RecursionError], [MemoryError]).
      [re.search] compiles its pattern first and raises [re.error] when
      that fails; otherwise it answers whether the pattern matches.
    - The content of the registry ([rules.py]) is a parameter as well: the
      properties hold for every registry.
    - The reviewer object holds the registry in [self.rules].  Methods run
      in a small state-and-exception monad over the object: they can read
      and write it, and an exception ends the run.  Loops that append to a
      local list thread that list.
    - Fields of the registry have the types the code expects (strings,
      lists of pairs); ill-typed registries are outside the model. *)

From Stdlib Require Import List String Ascii ZArith Bool Lia.
Import ListNotations.
Local Open Scope string_scope.
Local Open Scope list_scope.

(** ** Python strings *)

Module PyStr.

(** [needle in hay] on [str]: substring test. *)
Fixpoint py_in (needle hay : string) : bool :=
  prefix needle hay
  || match hay with
     | EmptyString => false
     | String _ rest => py_in needle rest
     end.

Definition CR : ascii := "013"%char.
Definition LF : ascii := "010"%char.

(** Line boundaries of [str.splitlines]: \n, \r, \r\n, \v, \f, \x1c,
    \x1d, \x1e and \x85 (U+2028 and U+2029 lie outside the model). *)
Definition is_linebreak (c : ascii) : bool :=
  existsb (Nat.eqb (nat_of_ascii c)) [10; 11; 12; 13; 28; 29; 30; 133]%nat.

(** [cur] is the line being read; a last line without terminator is
    kept, an empty remainder after a terminator is not. *)
Fixpoint splitlines_from (cur s : string) : list string :=
  match s with
  | EmptyString => if (cur =? "")%string then [] else [cur]
  | String c rest =>
      if is_linebreak c then
        cur :: splitlines_from ""
                 match rest with
                 | String c2 rest' =>
                     if Ascii.eqb c CR && Ascii.eqb c2 LF then rest' else rest
                 | EmptyString => rest
                 end
      else splitlines_from (cur ++ String c "") rest
  end.

Definition splitlines (s : string) : list string := splitlines_from "" s.

(** ASCII classification, as [re] sees 7-bit text. *)
Definition in_range (lo hi : nat) (c : ascii) : bool :=
  (lo <=? nat_of_ascii c)%nat && (nat_of_ascii c <=? hi)%nat.

Definition is_upper (c : ascii) : bool := in_range 65 90 c.
Definition is_lower (c : ascii) : bool := in_range 97 122 c.
Definition is_digit (c : ascii) : bool := in_range 48 57 c.

(** [\w] on 7-bit text: letters, digits and the underscore. *)
Definition is_word_char (c : ascii) : bool :=
  is_upper c || is_lower c || is_digit c || Ascii.eqb c "_"%char.

Definition lower (c : ascii) : ascii :=
  if is_upper c then ascii_of_nat (nat_of_ascii c + 32) else c.

Definition is_ascii (c : ascii) : bool := (nat_of_ascii c <? 128)%nat.

Fixpoint forall_chars (p : ascii -> bool) (s : string) : bool :=
  match s with
  | EmptyString => true
  | String c rest => p c && forall_chars p rest
  end.

Definition ascii_text (s : string) : bool := forall_chars is_ascii s.

(** A plain identifier: non-empty, word characters only. *)
Definition identifier (s : string) : bool :=
  negb (s =? "")%string && forall_chars is_word_char s.

End PyStr.
Import PyStr.

(** ** Whole-word search: what [re.search(r'\b' + w + r'\b', text)] computes
    for a plain identifier [w], given the class [wc] of word characters
    ([\w]).  This is the reference behaviour the matching function is
    required to have on such patterns (hypothesis [re_word_boundary]
    below). *)

Module WordRe.

(** One pattern character against one text character; IGNORECASE folds
    both to lower case. *)
Definition char_match (ic : bool) (p c : ascii) : bool :=
  if ic then Ascii.eqb (lower p) (lower c) else Ascii.eqb p c.

(** The literal [w] read at the head of [text]: the last character
    consumed and the remaining text. *)
Fixpoint match_literal (ic : bool) (w text : string) (prev : option ascii)
  : option (option ascii * string) :=
  match w with
  | EmptyString => Some (prev, text)
  | String p w' =>
      match text with
      | String c text' =>
          if char_match ic p c then match_literal ic w' text' (Some c) else None
      | EmptyString => None
      end
  end.

Definition word_at (wc : ascii -> bool) (c : option ascii) : bool :=
  match c with Some c => wc c | None => false end.

Definition head (s : string) : option ascii :=
  match s with String c _ => Some c | EmptyString => None end.

(** [\b]: exactly one side is a word character; the ends of the text
    count as non-word. *)
Definition at_boundary (wc : ascii -> bool) (prev next : option ascii)
  : bool :=
  xorb (word_at wc prev) (word_at wc next).

Definition match_word_here (wc : ascii -> bool) (ic : bool) (w : string)
  (prev : option ascii) (text : string) : bool :=
  at_boundary wc prev (head text)
  && match match_literal ic w text prev with
     | Some (last, rest) => at_boundary wc last (head rest)
     | None => false
     end.

(** Try every start position, [prev] being the character before it. *)
Fixpoint search_word (wc : ascii -> bool) (ic : bool) (w : string)
  (prev : option ascii) (text : string) : bool :=
  match_word_here wc ic w prev text
  || match text with
     | EmptyString => false
     | String c rest => search_word wc ic w (Some c) rest
     end.

Definition word_search (wc : ascii -> bool) (ic : bool) (w text : string)
  : bool :=
  search_word wc ic w None text.

(** [s = w ++ "\b"] gives [Some w]. *)
Fixpoint strip_trailing_b (s : string) : option string :=
  if (s =? "\b")%string then Some ""
  else match s with
       | String c rest => option_map (String c) (strip_trailing_b rest)
       | EmptyString => None
       end.

Definition unword_pattern (pattern : string) : option string :=
  match pattern with
  | String c1 (String c2 rest) =>
      if Ascii.eqb c1 "\"%char && Ascii.eqb c2 "b"%char
      then strip_trailing_b rest else None
  | _ => None
  end.

(** Substring search for a pattern without metacharacters. *)
Fixpoint search_literal (ic : bool) (w text : string) : bool :=
  match match_literal ic w text None with Some _ => true | None => false end
  || match text with
     | EmptyString => false
     | String _ rest => search_literal ic w rest
     end.

(** A matching function for two pattern shapes: [\bw\b] with [w] an
    identifier, and literal text, with the 7-bit class of word characters.
    It instantiates the development on concrete inputs. *)
Definition model_search (pattern text : string) (ignorecase : bool) : bool :=
  match unword_pattern pattern with
  | Some w =>
      if identifier w then word_search is_word_char ignorecase w text
      else search_literal ignorecase pattern text
  | None => search_literal ignorecase pattern text
  end.

(** The characters with a special meaning in a pattern. *)
Definition is_metachar (c : ascii) : bool :=
  existsb (Ascii.eqb c)
    ["."; "^"; "$"; "*"; "+"; "?"; "{"; "}"; "["; "]"; "\"; "|"; "("; ")"]%char.

(** What the model matcher compiles: the two shapes it implements.  Every
    other pattern is rejected, among them the unclosed group ["("], which
    [re] rejects too. *)
Definition model_compiles (pattern : string) (ignorecase : bool) : bool :=
  match unword_pattern pattern with
  | Some w => identifier w
  | None => false
  end
  || forall_chars (fun c => negb (is_metachar c)) pattern.

End WordRe.
Import WordRe.

(** ** Data model *)

(** An issue is the dict [{'line', 'issue', 'severity', 'category'}]; the
    four keys are always present. *)
Record Issue := mkIssue {
  line : Z;
  issue : string;
  severity : string;
  category : string
}.

(** A rule definition: every key of the dict is optional. *)
Module Rule.
Record t := make {
  severity : option string;
  patterns : option (list (string * string));
  scale_sensitive_algorithms : option (list (string * string));
  scalers : option (list string)
}.
End Rule.

(** A dict with [str] keys, in insertion order.  The keys of a Python
    dict are distinct; no property below needs that. *)
Definition dict (V : Type) := list (string * V).

Fixpoint dict_lookup {V : Type} (key : string) (d : dict V) : option V :=
  match d with
  | [] => None
  | (k, v) :: rest => if (k =? key)%string then Some v else dict_lookup key rest
  end.

(** [key in d] *)
Definition dict_has {V : Type} (key : string) (d : dict V) : bool :=
  match dict_lookup key d with Some _ => true | None => false end.

(** [d.get(key, default)] on an optional field. *)
Definition get_or {A : Type} (field : option A) (default : A) : A :=
  match field with Some a => a | None => default end.

Definition Registry := dict Rule.t.

(** The reviewer object: [self.rules]. *)
Record MLCodeReviewer := mkReviewer { rules : Registry }.

(** The exceptions that can end a run: [KeyError] of a dict lookup,
    [re.error] of a pattern that does not compile, and what [ast.parse]
    raises besides [SyntaxError]. *)
Inductive exn :=
| KeyError (key : string)
| ReError (pattern : string)
| ValueError (msg : string)
| RecursionError
| MemoryError.

(** Outcome of [ast.parse]: success, [SyntaxError] with its [lineno] (an
    optional int) and [msg], or another exception. *)
Inductive ParseResult :=
| ParseOk
| SyntaxError (lineno : option Z) (msg : string)
| ParseRaises (e : exn).

(** [x or 1] on an optional int: [None] and [0] are falsy. *)
Definition or_1 (x : option Z) : Z :=
  match x with
  | Some n => if (n =? 0)%Z then 1%Z else n
  | None => 1%Z
  end.

Inductive SeverityTier :=
| TierInfo
| TierSuggestion
| TierWarning
| TierCritical.

(** Modelled from the spec: the presentation layer (main.py, absent) reads
    a severity string as one of the closed set {info, suggestion, warning,
    error/critical}; 'error' is treated as 'critical'. *)
Definition severity_tier (s : string) : option SeverityTier :=
  if (s =? "info")%string then Some TierInfo
  else if (s =? "suggestion")%string then Some TierSuggestion
  else if (s =? "warning")%string then Some TierWarning
  else if (s =? "error")%string || (s =? "critical")%string then Some TierCritical
  else None.

(** A text with a NUL byte: [x = 1\x00]. *)
Definition nul_text : string := "x = 1" ++ String "000"%char "".

(** A parsing oracle for concrete runs.  It knows two inputs that do not
    parse: the unclosed call [print(], a [SyntaxError], and [nul_text],
    on which [ast.parse] of Python 3.11 raises [ValueError]. *)
Definition example_parse (code : string) : ParseResult :=
  if (code =? "print(")%string
  then SyntaxError (Some 1%Z) "'(' was never closed"
  else if (code =? nul_text)%string
  then ParseRaises (ValueError "source code string cannot contain null bytes")
  else ParseOk.

(** ** Methods run over the reviewer object and may raise *)

Inductive outcome (A : Type) :=
| Return (a : A)
| Raise (e : exn).
Arguments Return {A} a.
Arguments Raise {A} e.

Definition M (A : Type) : Type := MLCodeReviewer -> outcome A * MLCodeReviewer.

Definition ret {A : Type} (a : A) : M A := fun self => (Return a, self).

Definition raise {A : Type} (e : exn) : M A := fun self => (Raise e, self).

Definition bind {A B : Type} (m : M A) (k : A -> M B) : M B :=
  fun self =>
    match m self with
    | (Return a, self') => k a self'
    | (Raise e, self') => (Raise e, self')
    end.

(** Reading the attribute [self.rules]. *)
Definition self_rules : M Registry := fun self => (Return (rules self), self).

(** Assigning the attribute: [self.rules = registry]. *)
Definition set_self_rules (registry : Registry) : M unit :=
  fun _ => (Return tt, mkReviewer registry).

Notation "x <- m ;; k" := (bind m (fun x => k))
  (at level 100, m at next level, right associativity).

(** A [for] loop whose body updates a local value [s] and may raise. *)
Fixpoint for_each {A S : Type} (l : list A) (body : S -> A -> M S) (s : S)
  : M S :=
  match l with
  | [] => ret s
  | x :: rest => s' <- body s x ;; for_each rest body s'
  end.

(** ** The class [MLCodeReviewer] *)

Section Reviewer.

(** [ast.parse(code)] *)
Variable ast_parse : string -> ParseResult.

(** Whether [re] compiles a pattern under the given flags; the second
    argument tells whether the flags are [re.IGNORECASE]. *)
Variable re_compiles : string -> bool -> bool.

(** Whether a pattern that compiles matches somewhere in a string, under
    the given flags. *)
Variable re_search : string -> string -> bool -> bool.

(** [get_comprehensive_rules()] of [rules.py]. *)
Variable get_comprehensive_rules : Registry.

(** The call [re.search(pattern, string, flags)], used as a truth value:
    [re.error] when the pattern does not compile. *)
Definition call_re_search (pattern text : string) (ignorecase : bool)
  : M bool :=
  if re_compiles pattern ignorecase
  then ret (re_search pattern text ignorecase)
  else raise (ReError pattern).

(** [__init__] *)
Definition __init__ : M unit := set_self_rules get_comprehensive_rules.

(** [_find_line_for_pattern]: the loop over [enumerate(lines, 1)], [None]
    when it runs to its end without returning. *)
Fixpoint find_line_from (i : Z) (lines : list string) (pattern : string)
  : M (option Z) :=
  match lines with
  | [] => ret None
  | l :: rest =>
      found <- call_re_search pattern l true ;;
      if found then ret (Some i)
      else find_line_from (i + 1)%Z rest pattern
  end.

Definition _find_line_for_pattern (lines : list string) (pattern : string)
  : M Z :=
  r <- find_line_from 1%Z lines pattern ;;
  ret (match r with Some i => i | None => 1%Z end).

(** [_ast_analysis]: only [SyntaxError] is caught. *)
Definition _ast_analysis (code : string) : M (list Issue) :=
  match ast_parse code with
  | ParseOk => ret []
  | SyntaxError lineno msg =>
      ret [ {| line := or_1 lineno;
               issue := "Fatal Syntax Error: " ++ msg;
               severity := "error";
               category := "syntax" |} ]
  | ParseRaises e => raise e
  end.

(** [_deduplicate_issues]: one turn of the loop over [issues], the state
    being [(seen, unique_issues)]. *)
Definition identifier_of (i : Issue) : string * Z := (issue i, line i).

Definition identifier_eqb (a b : string * Z) : bool :=
  (fst a =? fst b)%string && (snd a =? snd b)%Z.

Definition seen_mem (k : string * Z) (seen : list (string * Z)) : bool :=
  existsb (identifier_eqb k) seen.

Definition dedup_step (st : list (string * Z) * list Issue) (i : Issue)
  : list (string * Z) * list Issue :=
  let '(seen, unique_issues) := st in
  let identifier := identifier_of i in
  if seen_mem identifier seen then st
  else (identifier :: seen, unique_issues ++ [i]).

Definition _deduplicate_issues (issues : list Issue) : list Issue :=
  snd (fold_left dedup_step issues ([], [])).

(** One turn of the inner loop of [analyze_code], over the (pattern,
    message) pairs of a category. *)
Definition pattern_turn (code : string) (lines : list string)
  (severity category : string) (issues : list Issue) (pm : string * string)
  : M (list Issue) :=
  let '(pattern, message) := pm in
  found <- call_re_search pattern code true ;;
  if found then
    line_num <- _find_line_for_pattern lines pattern ;;
    ret (issues ++ [ {| line := line_num;
                        issue := message;
                        severity := severity;
                        category := category |} ])
  else ret issues.

(** One turn of the outer loop, over [self.rules.items()]. *)
Definition category_turn (code : string) (lines : list string)
  (issues : list Issue) (item : string * Rule.t) : M (list Issue) :=
  let '(category, details) := item in
  let severity := get_or (Rule.severity details) "suggestion" in
  match Rule.patterns details with
  | Some patterns =>
      for_each patterns (pattern_turn code lines severity category) issues
  | None => ret issues
  end.

(** [any(scaler in code for scaler in scalers)] *)
Definition any_scaler_in (code : string) (scalers : list string) : bool :=
  existsb (fun scaler => py_in scaler code) scalers.

(** One turn of the loop of [_detect_scaling_issues], over
    [scale_sensitive.items()]; [and] evaluates the search first. *)
Definition algorithm_turn (code : string) (lines : list string)
  (scalers : list string) (issues : list Issue) (item : string * string)
  : M (list Issue) :=
  let '(algorithm, full_name) := item in
  found <- call_re_search ("\b" ++ algorithm ++ "\b") code false ;;
  if found && negb (any_scaler_in code scalers) then
    line_num <- _find_line_for_pattern lines ("\b" ++ algorithm ++ "\b") ;;
    ret (issues ++ [ {| line := line_num;
                        issue := full_name
                          ++ " is sensitive to feature scaling. Consider using a scaler.";
                        severity := "warning";
                        category := "scaling" |} ])
  else ret issues.

(** [_detect_scaling_issues]; [self.rules['feature_scaling']] raises
    [KeyError] when the key is absent. *)
Definition _detect_scaling_issues (code : string) (lines : list string)
  : M (list Issue) :=
  registry <- self_rules ;;
  match dict_lookup "feature_scaling" registry with
  | None => raise (KeyError "feature_scaling")
  | Some rule_info =>
      let scale_sensitive :=
        get_or (Rule.scale_sensitive_algorithms rule_info) [] in
      let scalers := get_or (Rule.scalers rule_info) [] in
      for_each scale_sensitive (algorithm_turn code lines scalers) []
  end.

(** [analyze_code] *)
Definition analyze_code (code : string) : M (list Issue) :=
  syntax_issues <- _ast_analysis code ;;
  match syntax_issues with
  | _ :: _ => ret syntax_issues
  | [] =>
      let lines := splitlines code in
      registry <- self_rules ;;
      issues <- for_each registry (category_turn code lines) [] ;;
      registry' <- self_rules ;;
      if dict_has "feature_scaling" registry' then
        extra <- _detect_scaling_issues code lines ;;
        ret (_deduplicate_issues (issues ++ extra))
      else
        ret (_deduplicate_issues issues)
  end.

(** Two calls in a row on the same object. *)
Definition analyze_twice (code : string)
  : M (list Issue * list Issue) :=
  first <- analyze_code code ;;
  second <- analyze_code code ;;
  ret (first, second).

(** ** What the loops compute when every call of [re.search] returns

    The functions of this part are the values of the methods above on the
    runs in which no pattern fails to compile ([find_line_cases],
    [pattern_turn_cases], [algorithm_turn_cases] and [analyze_code_cases]
    relate the two). *)

Fixpoint first_match_from (i : Z) (lines : list string) (pattern : string)
  : option Z :=
  match lines with
  | [] => None
  | l :: rest =>
      if re_search pattern l true then Some i
      else first_match_from (i + 1)%Z rest pattern
  end.

(** The value of [_find_line_for_pattern]. *)
Definition first_matching_line (lines : list string) (pattern : string) : Z :=
  match first_match_from 1%Z lines pattern with
  | Some i => i
  | None => 1%Z
  end.

(** The value of [pattern_turn]. *)
Definition check_pattern (code : string) (lines : list string)
  (severity category : string) (issues : list Issue) (pm : string * string)
  : list Issue :=
  let '(pattern, message) := pm in
  if re_search pattern code true then
    let line_num := first_matching_line lines pattern in
    issues ++ [ {| line := line_num;
                   issue := message;
                   severity := severity;
                   category := category |} ]
  else issues.

(** The value of [category_turn]. *)
Definition check_category (code : string) (lines : list string)
  (issues : list Issue) (item : string * Rule.t) : list Issue :=
  let '(category, details) := item in
  let severity := get_or (Rule.severity details) "suggestion" in
  match Rule.patterns details with
  | Some patterns =>
      fold_left (check_pattern code lines severity category) patterns issues
  | None => issues
  end.

(** The value of [algorithm_turn]. *)
Definition check_algorithm (code : string) (lines : list string)
  (scalers : list string) (issues : list Issue) (item : string * string)
  : list Issue :=
  let '(algorithm, full_name) := item in
  if re_search ("\b" ++ algorithm ++ "\b") code false
     && negb (any_scaler_in code scalers) then
    let line_num := first_matching_line lines ("\b" ++ algorithm ++ "\b") in
    issues ++ [ {| line := line_num;
                   issue := full_name
                     ++ " is sensitive to feature scaling. Consider using a scaler.";
                   severity := "warning";
                   category := "scaling" |} ]
  else issues.

(** The value of [_detect_scaling_issues] once [rule_info] is read. *)
Definition scaling_checks (code : string) (lines : list string)
  (rule_info : Rule.t) : list Issue :=
  let scale_sensitive :=
    get_or (Rule.scale_sensitive_algorithms rule_info) [] in
  let scalers := get_or (Rule.scalers rule_info) [] in
  fold_left (check_algorithm code lines scalers) scale_sensitive [].

(** The value of the generic pattern-based checks of [analyze_code]. *)
Definition pattern_checks (code : string) (lines : list string)
  (registry : Registry) : list Issue :=
  fold_left (check_category code lines) registry [].

(** Every pattern the analysis hands to [re.search] compiles: the patterns
    of the categories under [re.IGNORECASE], and the word pattern of each
    algorithm of the scaling rule without flags (detection) and under
    [re.IGNORECASE] (line lookup). *)
Definition registry_compiles (registry : Registry) : bool :=
  forallb
    (fun item : string * Rule.t =>
       forallb (fun pm : string * string => re_compiles (fst pm) true)
         (get_or (Rule.patterns (snd item)) []))
    registry
  && match dict_lookup "feature_scaling" registry with
     | Some rule_info =>
         forallb
           (fun item : string * string =>
              re_compiles ("\b" ++ fst item ++ "\b") false
              && re_compiles ("\b" ++ fst item ++ "\b") true)
           (get_or (Rule.scale_sensitive_algorithms rule_info) [])
     | None => true
     end.

(** [p] is a pattern of the registry that [re] does not compile. *)
Definition uncompilable_in (registry : Registry) (p : string) : Prop :=
  (exists cat details pms message,
      In (cat, details) registry /\ Rule.patterns details = Some pms
      /\ In (p, message) pms /\ re_compiles p true = false)
  \/ (exists rule_info algorithm full_name,
         dict_lookup "feature_scaling" registry = Some rule_info
         /\ In (algorithm, full_name)
              (get_or (Rule.scale_sensitive_algorithms rule_info) [])
         /\ p = ("\b" ++ algorithm ++ "\b")%string
         /\ (re_compiles p false = false \/ re_compiles p true = false)).

(** ** Vocabulary of the properties *)

(** The issues accumulated by a valid run before deduplication: the
    pattern checks, then the scaling checks when the registry has the
    scaling rule ([analyze_code_cases] relates it to [analyze_code]). *)
Definition collected_issues (code : string) (registry : Registry)
  : list Issue :=
  pattern_checks code (splitlines code) registry
  ++ match dict_lookup "feature_scaling" registry with
     | Some rule_info => scaling_checks code (splitlines code) rule_info
     | None => []
     end.

(** What one (pattern, message) pair of a category adds. *)
Definition pattern_issue (code : string) (lines : list string)
  (details : Rule.t) (category : string) (pm : string * string) : list Issue :=
  check_pattern code lines (get_or (Rule.severity details) "suggestion")
    category [] pm.

(** What a run of pairs of one category adds. *)
Definition pattern_issues (code : string) (lines : list string)
  (details : Rule.t) (category : string) (pms : list (string * string))
  : list Issue :=
  fold_left
    (check_pattern code lines (get_or (Rule.severity details) "suggestion")
       category) pms [].

(** What a run of (algorithm, full name) pairs adds. *)
Definition algorithm_issues (code : string) (lines : list string)
  (rule_info : Rule.t) (algorithms : list (string * string)) : list Issue :=
  fold_left
    (check_algorithm code lines (get_or (Rule.scalers rule_info) []))
    algorithms [].

(** [n] is the 1-based number of the first line satisfying [p], or 1 when
    no line does. *)
Definition first_line_where (p : string -> bool) (lines : list string)
  (n : Z) : Prop :=
  (exists k l,
      nth_error lines k = Some l /\ p l = true
      /\ (forall j l', (j < k)%nat -> nth_error lines j = Some l' -> p l' = false)
      /\ n = (Z.of_nat k + 1)%Z)
  \/ ((forall l, In l lines -> p l = false) /\ n = 1%Z).

(** How many issues of a list carry a given (message, line) identifier. *)
Definition count_identifier (k : string * Z) (issues : list Issue) : nat :=
  List.length (filter (fun i => identifier_eqb (identifier_of i) k) issues).

(** The last character of a string. *)
Fixpoint last_char (s : string) : option ascii :=
  match s with
  | EmptyString => None
  | String c EmptyString => Some c
  | String _ rest => last_char rest
  end.

(** [m] is the literal [w], up to letter case under IGNORECASE. *)
Fixpoint literal_eq (ic : bool) (w m : string) : bool :=
  match w, m with
  | EmptyString, EmptyString => true
  | String p w', String c m' => char_match ic p c && literal_eq ic w' m'
  | _, _ => false
  end.

(** [w] occurs in [text] as a whole word: no word character right before
    or right after the occurrence. *)
Definition whole_word_occurrence (wc : ascii -> bool) (ic : bool)
  (w text : string) : Prop :=
  exists pre m post,
    text = (pre ++ m ++ post)%string /\ literal_eq ic w m = true
    /\ word_at wc (last_char pre) = false /\ word_at wc (head post) = false.

(** A class of word characters that, on 7-bit characters, is letters,
    digits and the underscore. *)
Definition agrees_on_ascii (wc : ascii -> bool) : Prop :=
  forall c, is_ascii c = true -> wc c = is_word_char c.

(** The scaling issue for an algorithm with full display name [full_name],
    reported at line [n]. *)
Definition scaling_issue (full_name : string) (n : Z) : Issue :=
  {| line := n;
     issue := full_name
       ++ " is sensitive to feature scaling. Consider using a scaler.";
     severity := "warning";
     category := "scaling" |}.

(** The character before a position: the last one of [pre], or [prev]
    when [pre] is empty. *)
Definition last_or (prev : option ascii) (pre : string) : option ascii :=
  match last_char pre with Some c => Some c | None => prev end.

(** State of the deduplication loop after the issues [l]. *)
Definition dedup_state (l : list Issue) : list (string * Z) * list Issue :=
  fold_left dedup_step l ([], []).

(** A loop body that only ever appends to its accumulator. *)
Definition appends_only {A B : Type} (f : list B -> A -> list B) : Prop :=
  forall acc x, f acc x = acc ++ f [] x.

(** * Properties *)

(** ** Strings *)

Example splitlines_blank_line :
  splitlines ("ab" ++ String LF (String LF "c")) = ["ab"; ""; "c"].
Proof. reflexivity. Qed.

Example splitlines_crlf_and_final_newline :
  splitlines ("ab" ++ String CR (String LF ("c" ++ String LF ""))) = ["ab"; "c"].
Proof. reflexivity. Qed.

Example splitlines_empty : splitlines "" = [].
Proof. reflexivity. Qed.

Lemma append_empty_r (s : string) : (s ++ "")%string = s.
Proof. induction s as [|c s IH]; simpl; [reflexivity | now rewrite IH]. Qed.

Lemma append_assoc (a b c : string) :
  ((a ++ b) ++ c)%string = (a ++ b ++ c)%string.
Proof. induction a as [|x a IH]; simpl; [reflexivity | now rewrite IH]. Qed.

Lemma prefix_iff (a b : string) :
  prefix a b = true <-> exists post, b = (a ++ post)%string.
Proof.
  revert b; induction a as [|x a IH]; intros b.
  - split; [intros _; now exists b | now destruct b].
  - destruct b as [|y b]; simpl.
    + split; [discriminate | intros [post H]; discriminate].
    + destruct (ascii_dec x y) as [->|Hxy].
      * rewrite IH. split; intros [post H]; exists post.
        -- now rewrite H.
        -- now injection H.
      * split; [discriminate|].
        intros [post H]. injection H as H1 _. now symmetry in H1.
Qed.

(** [needle in hay] holds exactly when [hay] splits around [needle]. *)
Lemma py_in_iff (needle hay : string) :
  py_in needle hay = true
  <-> exists pre post, hay = (pre ++ needle ++ post)%string.
Proof.
  induction hay as [|c hay IH]; cbn [py_in].
  - rewrite orb_false_r. split.
    + intros H. apply prefix_iff in H as [post H]. now exists "", post.
    + intros [pre [post H]]. apply prefix_iff.
      destruct pre; [now exists post | discriminate].
  - rewrite orb_true_iff, IH. split.
    + intros [H | [pre [post H]]].
      * apply prefix_iff in H as [post H]. now exists "", post.
      * exists (String c pre), post. simpl. now rewrite H.
    + intros [pre [post H]]. destruct pre as [|x pre]; simpl in H.
      * left. apply prefix_iff. now exists post.
      * right. injection H as _ H. now exists pre, post.
Qed.

(** ** Loops that append *)

Section AppendOnly.

Context {A B : Type} (f : list B -> A -> list B).
Hypothesis f_appends : appends_only f.

Lemma fold_appends_acc (l : list A) (acc : list B) :
  fold_left f l acc = acc ++ fold_left f l [].
Proof.
  revert acc; induction l as [|x l IH]; intros acc; simpl.
  - now rewrite app_nil_r.
  - rewrite IH, (IH (f [] x)), (f_appends acc x). now rewrite app_assoc.
Qed.

Lemma fold_appends_app (l1 l2 : list A) :
  fold_left f (l1 ++ l2) [] = fold_left f l1 [] ++ fold_left f l2 [].
Proof. rewrite fold_left_app. apply fold_appends_acc. Qed.

Lemma fold_appends_cons (x : A) (l : list A) :
  fold_left f (x :: l) [] = f [] x ++ fold_left f l [].
Proof. simpl. apply fold_appends_acc. Qed.

Lemma fold_appends_split (l1 : list A) (x : A) (l2 : list A) :
  fold_left f (l1 ++ x :: l2) []
  = fold_left f l1 [] ++ f [] x ++ fold_left f l2 [].
Proof. now rewrite fold_appends_app, fold_appends_cons. Qed.

End AppendOnly.

Lemma check_pattern_appends code lines sev cat :
  appends_only (check_pattern code lines sev cat).
Proof.
  intros acc [pattern message]. unfold check_pattern.
  destruct (re_search pattern code true); [reflexivity | now rewrite app_nil_r].
Qed.

Lemma check_category_appends code lines :
  appends_only (check_category code lines).
Proof.
  intros acc [cat details]. unfold check_category.
  destruct (Rule.patterns details) as [pms|].
  - apply fold_appends_acc, check_pattern_appends.
  - now rewrite app_nil_r.
Qed.

Lemma check_algorithm_appends code lines scalers :
  appends_only (check_algorithm code lines scalers).
Proof.
  intros acc [algorithm full_name]. unfold check_algorithm.
  destruct (_ && _); [reflexivity | now rewrite app_nil_r].
Qed.

(** ** Line lookup *)

Lemma first_match_from_spec (pattern : string) (lines : list string) (i : Z) :
  match first_match_from i lines pattern with
  | Some n =>
      exists k l,
        nth_error lines k = Some l /\ re_search pattern l true = true
        /\ (forall j l', (j < k)%nat -> nth_error lines j = Some l' ->
                         re_search pattern l' true = false)
        /\ n = (i + Z.of_nat k)%Z
  | None => forall l, In l lines -> re_search pattern l true = false
  end.
Proof.
  revert i; induction lines as [|l rest IH]; intros i; simpl.
  - intros l [].
  - destruct (re_search pattern l true) eqn:Hl.
    + exists 0%nat, l. repeat split; [assumption | lia | lia].
    + specialize (IH (i + 1)%Z).
      destruct (first_match_from (i + 1) rest pattern) as [n|].
      * destruct IH as [k [l' [Hk [Hm [Hfirst Hn]]]]].
        exists (S k), l'. repeat split; try assumption.
        -- intros [|j] l'' Hj Hnth; simpl in Hnth.
           ++ now injection Hnth as <-.
           ++ apply (Hfirst j); [lia | assumption].
        -- lia.
      * intros l' [<- | Hin]; [assumption | now apply IH].
Qed.

(** [first_matching_line] is the number of the first line the pattern
    matches case-insensitively, and 1 when there is none. *)
Lemma find_line_for_pattern_spec (lines : list string) (pattern : string) :
  first_line_where (fun l => re_search pattern l true) lines
    (first_matching_line lines pattern).
Proof.
  unfold first_matching_line, first_line_where.
  pose proof (first_match_from_spec pattern lines 1) as H.
  destruct (first_match_from 1 lines pattern) as [n|].
  - left. destruct H as [k [l [Hk [Hm [Hfirst Hn]]]]].
    exists k, l. repeat split; try assumption. lia.
  - right. split; [assumption | reflexivity].
Qed.

(** [first_line_where] determines the line. *)
Lemma first_line_where_unique p lines n m :
  first_line_where p lines n -> first_line_where p lines m -> n = m.
Proof.
  intros [[k [l [Hk [Hp [Hf ->]]]]] | [Hnone ->]]
         [[k' [l' [Hk' [Hp' [Hf' ->]]]]] | [Hnone' ->]].
  - destruct (Nat.lt_trichotomy k k') as [Hlt | [-> | Hlt]].
    + rewrite (Hf' k l Hlt Hk) in Hp. discriminate.
    + reflexivity.
    + rewrite (Hf k' l' Hlt Hk') in Hp'. discriminate.
  - apply nth_error_In in Hk. rewrite (Hnone' l Hk) in Hp. discriminate.
  - apply nth_error_In in Hk'. rewrite (Hnone l' Hk') in Hp'. discriminate.
  - reflexivity.
Qed.

(** ** Deduplication *)

Lemma identifier_eqb_eq (a b : string * Z) :
  identifier_eqb a b = true <-> a = b.
Proof.
  destruct a as [s n], b as [s' n']. unfold identifier_eqb; simpl.
  rewrite andb_true_iff, String.eqb_eq, Z.eqb_eq.
  split; [intros [-> ->]; reflexivity | intros H; now injection H].
Qed.

Lemma seen_mem_In (k : string * Z) (seen : list (string * Z)) :
  seen_mem k seen = true <-> In k seen.
Proof.
  unfold seen_mem. rewrite existsb_exists. split.
  - intros [x [Hin Heq]]. apply identifier_eqb_eq in Heq. now subst.
  - intros Hin. exists k. split; [assumption | now apply identifier_eqb_eq].
Qed.

Lemma seen_mem_ext (k : string * Z) (s1 s2 : list (string * Z)) :
  (forall x, In x s1 <-> In x s2) -> seen_mem k s1 = seen_mem k s2.
Proof.
  intros H. apply eq_true_iff_eq. now rewrite !seen_mem_In.
Qed.

Lemma NoDup_snoc {A : Type} (l : list A) (x : A) :
  NoDup l -> ~ In x l -> NoDup (l ++ [x]).
Proof.
  induction l as [|y l IH]; simpl; intros Hnd Hx.
  - constructor; [intros [] | constructor].
  - inversion Hnd as [|? ? Hy Hl]; subst. constructor.
    + rewrite in_app_iff. simpl. intros [H | [-> | []]]; tauto.
    + apply IH; tauto.
Qed.

Lemma dedup_state_snoc (l : list Issue) (i : Issue) :
  dedup_state (l ++ [i]) = dedup_step (dedup_state l) i.
Proof. unfold dedup_state. now rewrite fold_left_app. Qed.

(** Loop invariant: [seen] holds the identifiers of the issues read so
    far, which are also those of the issues kept, each kept once. *)
Lemma dedup_state_inv (l : list Issue) :
  (forall k, In k (fst (dedup_state l)) <-> In k (map identifier_of l))
  /\ (forall k, In k (map identifier_of (snd (dedup_state l)))
                <-> In k (map identifier_of l))
  /\ NoDup (map identifier_of (snd (dedup_state l)))
  /\ (forall i, In i (snd (dedup_state l)) -> In i l).
Proof.
  induction l as [|i l IH] using rev_ind.
  - simpl. repeat split; try (intros []); try constructor; intros [].
  - rewrite dedup_state_snoc.
    destruct (dedup_state l) as [seen uniq]. simpl in IH.
    destruct IH as [Hseen [Hkeys [Hnd Hsub]]].
    unfold dedup_step.
    destruct (seen_mem (identifier_of i) seen) eqn:Hmem; simpl.
    + apply seen_mem_In in Hmem.
      repeat split; try assumption.
      * rewrite Hseen, map_app, in_app_iff. tauto.
      * rewrite map_app, in_app_iff, Hseen. simpl. intros [H | [<- | []]].
        -- assumption.
        -- now apply Hseen.
      * rewrite Hkeys, map_app, in_app_iff. tauto.
      * rewrite map_app, in_app_iff, Hkeys. simpl. intros [H | [<- | []]].
        -- assumption.
        -- now apply Hseen.
      * intros x Hx. apply in_or_app. left. now apply Hsub.
    + assert (Hnew : ~ In (identifier_of i) seen).
      { intros H. apply seen_mem_In in H. congruence. }
      repeat split.
      * intros [<- | H]; rewrite map_app, in_app_iff; simpl.
        -- right. now left.
        -- left. now apply Hseen.
      * rewrite map_app, in_app_iff. simpl. intros [H | [<- | []]].
        -- right. now apply Hseen.
        -- now left.
      * rewrite !map_app, !in_app_iff, Hkeys. tauto.
      * rewrite !map_app, !in_app_iff, Hkeys. tauto.
      * rewrite map_app. simpl.
        apply NoDup_snoc; [assumption|].
        intros H. apply Hnew, Hseen, Hkeys, H.
      * intros x Hx. apply in_app_or in Hx. apply in_or_app.
        destruct Hx as [Hx | Hx]; [left; now apply Hsub | now right].
Qed.

Lemma deduplicate_snoc (l : list Issue) (i : Issue) :
  _deduplicate_issues (l ++ [i])
  = _deduplicate_issues l
    ++ (if seen_mem (identifier_of i) (map identifier_of l) then [] else [i]).
Proof.
  unfold _deduplicate_issues. fold (dedup_state (l ++ [i])) (dedup_state l).
  rewrite dedup_state_snoc.
  destruct (dedup_state_inv l) as [Hseen _].
  rewrite <- (seen_mem_ext (identifier_of i) _ _ Hseen).
  destruct (dedup_state l) as [seen uniq]. simpl.
  destruct (seen_mem (identifier_of i) seen); simpl;
    [now rewrite app_nil_r | reflexivity].
Qed.

Lemma deduplicate_NoDup (l : list Issue) :
  NoDup (map identifier_of (_deduplicate_issues l)).
Proof. apply (dedup_state_inv l). Qed.

Lemma deduplicate_identifiers (l : list Issue) (k : string * Z) :
  In k (map identifier_of (_deduplicate_issues l))
  <-> In k (map identifier_of l).
Proof. apply (dedup_state_inv l). Qed.

Lemma deduplicate_incl (l : list Issue) (i : Issue) :
  In i (_deduplicate_issues l) -> In i l.
Proof. apply (dedup_state_inv l). Qed.

Lemma count_identifier_absent (k : string * Z) (l : list Issue) :
  ~ In k (map identifier_of l) -> count_identifier k l = 0%nat.
Proof.
  unfold count_identifier. induction l as [|i l IH]; simpl; intros H.
  - reflexivity.
  - destruct (identifier_eqb (identifier_of i) k) eqn:E.
    + apply identifier_eqb_eq in E. tauto.
    + apply IH. tauto.
Qed.

Lemma count_identifier_NoDup (k : string * Z) (l : list Issue) :
  NoDup (map identifier_of l) -> In k (map identifier_of l) ->
  count_identifier k l = 1%nat.
Proof.
  unfold count_identifier. induction l as [|i l IH]; simpl; intros Hnd Hin.
  - destruct Hin.
  - inversion Hnd as [|? ? Hi Hl]; subst.
    destruct (identifier_eqb (identifier_of i) k) eqn:E.
    + apply identifier_eqb_eq in E. subst k. simpl.
      f_equal. now apply count_identifier_absent.
    + destruct Hin as [Hin | Hin].
      * apply identifier_eqb_eq in Hin. congruence.
      * now apply IH.
Qed.

(** ** Runs of the methods *)

Lemma call_re_search_run pattern text ic self :
  call_re_search pattern text ic self
  = (if re_compiles pattern ic
     then Return (re_search pattern text ic)
     else Raise (ReError pattern), self).
Proof. unfold call_re_search. now destruct (re_compiles pattern ic). Qed.

(** A loop whose turns return [f] or raise returns the fold of [f] or
    raises what one of its turns raises; the object is left alone. *)
Lemma for_each_cases {A S : Type} (body : S -> A -> M S) (f : S -> A -> S)
  (P : exn -> A -> Prop) (self : MLCodeReviewer) (l : list A) :
  (forall s x, In x l ->
     body s x self = (Return (f s x), self)
     \/ exists e, P e x /\ body s x self = (Raise e, self)) ->
  forall s,
    for_each l body s self = (Return (fold_left f l s), self)
    \/ exists e x, In x l /\ P e x /\ for_each l body s self = (Raise e, self).
Proof.
  induction l as [|x l IH]; intros Hbody s; [now left|].
  cbn [for_each fold_left]. unfold bind.
  destruct (Hbody s x (or_introl eq_refl)) as [H | [e [HP H]]]; rewrite H.
  - destruct (IH (fun s' y Hy => Hbody s' y (or_intror Hy)) (f s x))
      as [H' | [e [y [Hy [HP H']]]]].
    + now left.
    + right. exists e, y. split; [now right | now split].
  - right. exists e, x. split; [now left | now split].
Qed.

Lemma find_line_from_ok pattern lines i self :
  re_compiles pattern true = true ->
  find_line_from i lines pattern self
  = (Return (first_match_from i lines pattern), self).
Proof.
  intros Hc. revert i; induction lines as [|l rest IH]; intros i;
    [reflexivity|].
  cbn [find_line_from first_match_from]. unfold bind.
  rewrite call_re_search_run, Hc.
  destruct (re_search pattern l true); [reflexivity | apply IH].
Qed.

(** [_find_line_for_pattern] returns the first matching line, or raises
    [re.error] on its first line when the pattern does not compile. *)
Lemma find_line_cases lines pattern self :
  _find_line_for_pattern lines pattern self
  = (Return (first_matching_line lines pattern), self)
  \/ (re_compiles pattern true = false /\ lines <> []
      /\ _find_line_for_pattern lines pattern self
         = (Raise (ReError pattern), self)).
Proof.
  unfold _find_line_for_pattern, first_matching_line, bind.
  destruct (re_compiles pattern true) eqn:Hc.
  - left. now rewrite (find_line_from_ok pattern lines 1 self Hc).
  - destruct lines as [|l rest]; [now left|].
    right. split; [reflexivity | split; [discriminate|]].
    cbn [find_line_from]. unfold bind. now rewrite call_re_search_run, Hc.
Qed.

Lemma find_line_ok lines pattern self :
  re_compiles pattern true = true ->
  _find_line_for_pattern lines pattern self
  = (Return (first_matching_line lines pattern), self).
Proof.
  intros Hc. destruct (find_line_cases lines pattern self) as [H | [H _]];
    [assumption | congruence].
Qed.

Lemma pattern_turn_cases code lines sev cat issues pattern message self :
  pattern_turn code lines sev cat issues (pattern, message) self
  = (Return (check_pattern code lines sev cat issues (pattern, message)), self)
  \/ (re_compiles pattern true = false
      /\ pattern_turn code lines sev cat issues (pattern, message) self
         = (Raise (ReError pattern), self)).
Proof.
  unfold pattern_turn, check_pattern, bind. rewrite call_re_search_run.
  destruct (re_compiles pattern true) eqn:Hc; [left | now right].
  destruct (re_search pattern code true); [|reflexivity].
  now rewrite (find_line_ok lines pattern self Hc).
Qed.

Lemma category_turn_cases code lines issues cat details self :
  category_turn code lines issues (cat, details) self
  = (Return (check_category code lines issues (cat, details)), self)
  \/ exists pms pattern message,
       Rule.patterns details = Some pms /\ In (pattern, message) pms
       /\ re_compiles pattern true = false
       /\ category_turn code lines issues (cat, details) self
          = (Raise (ReError pattern), self).
Proof.
  unfold category_turn, check_category.
  destruct (Rule.patterns details) as [pms|]; [|now left].
  destruct (for_each_cases
              (pattern_turn code lines
                 (get_or (Rule.severity details) "suggestion") cat)
              (check_pattern code lines
                 (get_or (Rule.severity details) "suggestion") cat)
              (fun e pm => e = ReError (fst pm)
                           /\ re_compiles (fst pm) true = false)
              self pms) with (s := issues)
    as [H | [e [[pattern message] [Hin [[-> Hc] H]]]]].
  - intros s [pattern message] _.
    destruct (pattern_turn_cases code lines
                (get_or (Rule.severity details) "suggestion") cat s
                pattern message self) as [H | [Hc H]]; [now left|].
    right. exists (ReError pattern). now split.
  - now left.
  - right. now exists pms, pattern, message.
Qed.

(** The pattern loop of [analyze_code]. *)
Lemma pattern_loop_cases code lines registry self :
  for_each registry (category_turn code lines) [] self
  = (Return (pattern_checks code lines registry), self)
  \/ exists cat details pms pattern message,
       In (cat, details) registry /\ Rule.patterns details = Some pms
       /\ In (pattern, message) pms /\ re_compiles pattern true = false
       /\ for_each registry (category_turn code lines) [] self
          = (Raise (ReError pattern), self).
Proof.
  unfold pattern_checks.
  destruct (for_each_cases (category_turn code lines)
              (check_category code lines)
              (fun e item =>
                 exists pms pattern message,
                   Rule.patterns (snd item) = Some pms
                   /\ In (pattern, message) pms
                   /\ re_compiles pattern true = false
                   /\ e = ReError pattern)
              self registry) with (s := @nil Issue)
    as [H | [e [[cat details] [Hin [[pms [p [m [Hpms [Hpm [Hc ->]]]]]] H]]]]].
  - intros s [cat details] _.
    destruct (category_turn_cases code lines s cat details self)
      as [H | [pms [p [m [Hpms [Hpm [Hc H]]]]]]]; [now left|].
    right. exists (ReError p). split; [|assumption].
    now exists pms, p, m.
  - now left.
  - right. now exists cat, details, pms, p, m.
Qed.

Lemma algorithm_turn_cases code lines scalers issues algorithm full_name self :
  algorithm_turn code lines scalers issues (algorithm, full_name) self
  = (Return (check_algorithm code lines scalers issues (algorithm, full_name)),
     self)
  \/ ((re_compiles ("\b" ++ algorithm ++ "\b") false = false
       \/ re_compiles ("\b" ++ algorithm ++ "\b") true = false)
      /\ algorithm_turn code lines scalers issues (algorithm, full_name) self
         = (Raise (ReError ("\b" ++ algorithm ++ "\b")), self)).
Proof.
  unfold algorithm_turn, check_algorithm, bind. rewrite call_re_search_run.
  destruct (re_compiles ("\b" ++ algorithm ++ "\b") false) eqn:Hc;
    [|right; split; [now left | reflexivity]].
  destruct (re_search ("\b" ++ algorithm ++ "\b") code false
            && negb (any_scaler_in code scalers)); [|now left].
  destruct (find_line_cases lines ("\b" ++ algorithm ++ "\b") self)
    as [H | [Hc' [_ H]]]; rewrite H.
  - now left.
  - right. split; [now right | reflexivity].
Qed.

(** [_detect_scaling_issues]: [KeyError] without the scaling rule; with
    it, the scaling checks, or [re.error] for the word pattern of an
    algorithm. *)
Lemma detect_scaling_issues_cases code lines self :
  match dict_lookup "feature_scaling" (rules self) with
  | None =>
      _detect_scaling_issues code lines self
      = (Raise (KeyError "feature_scaling"), self)
  | Some rule_info =>
      _detect_scaling_issues code lines self
      = (Return (scaling_checks code lines rule_info), self)
      \/ exists algorithm full_name,
           In (algorithm, full_name)
              (get_or (Rule.scale_sensitive_algorithms rule_info) [])
           /\ (re_compiles ("\b" ++ algorithm ++ "\b") false = false
               \/ re_compiles ("\b" ++ algorithm ++ "\b") true = false)
           /\ _detect_scaling_issues code lines self
              = (Raise (ReError ("\b" ++ algorithm ++ "\b")), self)
  end.
Proof.
  unfold _detect_scaling_issues, bind, self_rules, scaling_checks.
  destruct (dict_lookup "feature_scaling" (rules self)) as [rule_info|];
    [|reflexivity].
  destruct (for_each_cases
              (algorithm_turn code lines (get_or (Rule.scalers rule_info) []))
              (check_algorithm code lines (get_or (Rule.scalers rule_info) []))
              (fun e item =>
                 (re_compiles ("\b" ++ fst item ++ "\b") false = false
                  \/ re_compiles ("\b" ++ fst item ++ "\b") true = false)
                 /\ e = ReError ("\b" ++ fst item ++ "\b"))
              self (get_or (Rule.scale_sensitive_algorithms rule_info) []))
    with (s := @nil Issue)
    as [H | [e [[algorithm full_name] [Hin [[Hc ->] H]]]]].
  - intros s [algorithm full_name] _.
    destruct (algorithm_turn_cases code lines
                (get_or (Rule.scalers rule_info) []) s algorithm full_name self)
      as [H | [Hc H]]; [now left|].
    right. eexists. split; [split; [exact Hc | reflexivity] | exact H].
  - now left.
  - right. now exists algorithm, full_name.
Qed.

(** [analyze_code], outcome by outcome of the parser: the parser's own
    exception; the single syntax issue; or, on a valid input, the
    deduplicated accumulation, unless a pattern of the registry does not
    compile.  The object is handed back unchanged in every case. *)
Lemma analyze_code_cases code self :
  match ast_parse code with
  | ParseRaises e => analyze_code code self = (Raise e, self)
  | SyntaxError lineno msg =>
      analyze_code code self
      = (Return [ {| line := or_1 lineno;
                     issue := "Fatal Syntax Error: " ++ msg;
                     severity := "error";
                     category := "syntax" |} ], self)
  | ParseOk =>
      analyze_code code self
      = (Return (_deduplicate_issues (collected_issues code (rules self))),
         self)
      \/ exists p,
           uncompilable_in (rules self) p
           /\ analyze_code code self = (Raise (ReError p), self)
  end.
Proof.
  unfold analyze_code, _ast_analysis.
  destruct (ast_parse code) as [|lineno msg|e]; try reflexivity.
  unfold bind, ret, self_rules. cbv beta iota zeta.
  destruct (pattern_loop_cases code (splitlines code) (rules self) self)
    as [H | [cat [details [pms [p [m [Hin [Hpms [Hpm [Hc H]]]]]]]]]];
    rewrite H.
  - unfold dict_has, collected_issues.
    pose proof (detect_scaling_issues_cases code (splitlines code) self) as Hd.
    destruct (dict_lookup "feature_scaling" (rules self)) as [rule_info|] eqn:E.
    + destruct Hd as [Hd | [algorithm [full_name [Hin [Hc Hd]]]]]; rewrite Hd.
      * now left.
      * right. exists ("\b" ++ algorithm ++ "\b")%string.
        split; [|reflexivity]. right.
        now exists rule_info, algorithm, full_name.
    + left. now rewrite app_nil_r.
  - right. exists p. split; [|reflexivity].
    left. now exists cat, details, pms, m.
Qed.

Lemma registry_compiles_spec registry p :
  registry_compiles registry = true -> ~ uncompilable_in registry p.
Proof.
  unfold registry_compiles. rewrite andb_true_iff, forallb_forall.
  intros [Hpat Halg] [[cat [details [pms [m [Hin [Hpms [Hpm Hc]]]]]]]
                      | [rule_info [algorithm [full_name [Hrule [Hin [-> Hc]]]]]]].
  - specialize (Hpat (cat, details) Hin). cbn [snd] in Hpat.
    rewrite Hpms in Hpat. cbn [get_or] in Hpat.
    rewrite forallb_forall in Hpat. specialize (Hpat (p, m) Hpm).
    cbn [fst] in Hpat. congruence.
  - rewrite Hrule, forallb_forall in Halg.
    specialize (Halg (algorithm, full_name) Hin). cbn [fst] in Halg.
    apply andb_true_iff in Halg as [H1 H2]. destruct Hc; congruence.
Qed.

(** A valid input and a registry whose patterns compile: the deduplicated
    accumulation. *)
Lemma analyze_code_valid code self :
  ast_parse code = ParseOk ->
  registry_compiles (rules self) = true ->
  analyze_code code self
  = (Return (_deduplicate_issues (collected_issues code (rules self))), self).
Proof.
  intros Hparse Hreg. pose proof (analyze_code_cases code self) as H.
  rewrite Hparse in H. destruct H as [H | [p [Hp _]]]; [assumption|].
  exfalso. exact (registry_compiles_spec _ _ Hreg Hp).
Qed.

(** Whatever it returns on a valid input is the deduplicated
    accumulation. *)
Lemma analyze_code_returned code self issues :
  ast_parse code = ParseOk ->
  fst (analyze_code code self) = Return issues ->
  issues = _deduplicate_issues (collected_issues code (rules self)).
Proof.
  intros Hparse Hrun. pose proof (analyze_code_cases code self) as H.
  rewrite Hparse in H. destruct H as [H | [p [_ H]]]; rewrite H in Hrun;
    simpl in Hrun; [now injection Hrun | discriminate].
Qed.

Lemma analyze_code_syntax code self lineno msg :
  ast_parse code = SyntaxError lineno msg ->
  analyze_code code self
  = (Return [ {| line := or_1 lineno;
                 issue := "Fatal Syntax Error: " ++ msg;
                 severity := "error";
                 category := "syntax" |} ], self).
Proof.
  intros H. pose proof (analyze_code_cases code self) as Hc.
  now rewrite H in Hc.
Qed.

Lemma analyze_code_frame code self : snd (analyze_code code self) = self.
Proof.
  pose proof (analyze_code_cases code self) as H.
  destruct (ast_parse code) as [|lineno msg|e].
  - destruct H as [H | [p [_ H]]]; now rewrite H.
  - now rewrite H.
  - now rewrite H.
Qed.


Lemma registry_compiles_algorithm registry rule_info algorithm full_name :
  registry_compiles registry = true ->
  dict_lookup "feature_scaling" registry = Some rule_info ->
  In (algorithm, full_name)
     (get_or (Rule.scale_sensitive_algorithms rule_info) []) ->
  re_compiles ("\b" ++ algorithm ++ "\b") false = true
  /\ re_compiles ("\b" ++ algorithm ++ "\b") true = true.
Proof.
  unfold registry_compiles. rewrite andb_true_iff. intros [_ H] Hrule Hin.
  rewrite Hrule, forallb_forall in H.
  specialize (H (algorithm, full_name) Hin). cbn [fst] in H.
  now apply andb_true_iff in H.
Qed.

(** With the scaling rule and a registry whose patterns compile,
    [_detect_scaling_issues] returns the scaling checks. *)
Lemma detect_scaling_issues_run code lines self rule_info :
  dict_lookup "feature_scaling" (rules self) = Some rule_info ->
  registry_compiles (rules self) = true ->
  _detect_scaling_issues code lines self
  = (Return (scaling_checks code lines rule_info), self).
Proof.
  intros Hrule Hreg.
  pose proof (detect_scaling_issues_cases code lines self) as H.
  rewrite Hrule in H.
  destruct H as [H | [algorithm [full_name [Hin [Hc _]]]]]; [assumption|].
  destruct (registry_compiles_algorithm _ _ _ _ Hreg Hrule Hin) as [H1 H2].
  destruct Hc; congruence.
Qed.





(** ** Whole-word search *)

Lemma is_word_char_lower (c : ascii) :
  is_word_char c = true -> is_word_char (lower c) = true.
Proof.
  destruct c as [[] [] [] [] [] [] [] []]; vm_compute; intros H;
    first [reflexivity | discriminate H].
Qed.

Lemma is_word_char_of_lower (c : ascii) :
  is_word_char (lower c) = true -> is_word_char c = true.
Proof.
  destruct c as [[] [] [] [] [] [] [] []]; vm_compute; intros H;
    first [reflexivity | discriminate H].
Qed.

Lemma is_word_char_ascii (c : ascii) :
  is_word_char c = true -> is_ascii c = true.
Proof.
  destruct c as [[] [] [] [] [] [] [] []]; vm_compute; intros H;
    first [reflexivity | discriminate H].
Qed.

(** What matches a word character of the pattern is a 7-bit word
    character, also when letter case is ignored. *)
Lemma char_match_word (ic : bool) (p c : ascii) :
  char_match ic p c = true -> is_word_char p = true -> is_word_char c = true.
Proof.
  unfold char_match. destruct ic; intros H Hp; apply Ascii.eqb_eq in H.
  - apply is_word_char_of_lower. rewrite <- H. now apply is_word_char_lower.
  - now subst.
Qed.

Lemma last_char_cons (c : ascii) (s : string) :
  exists x, last_char (String c s) = Some x.
Proof.
  revert c; induction s as [|y s IH]; intros c.
  - now exists c.
  - destruct (IH y) as [x Hx]. exists x. exact Hx.
Qed.

Lemma last_or_cons (prev : option ascii) (c : ascii) (s : string) :
  last_or prev (String c s) = last_or (Some c) s.
Proof.
  unfold last_or. destruct s as [|y s]; [reflexivity|].
  destruct (last_char_cons y s) as [x Hx].
  change (last_char (String c (String y s))) with (last_char (String y s)).
  now rewrite Hx.
Qed.

Lemma literal_eq_word (ic : bool) (w m : string) :
  literal_eq ic w m = true ->
  forall_chars is_word_char w = true -> forall_chars is_word_char m = true.
Proof.
  revert m; induction w as [|p w IH]; intros [|c m]; simpl; try discriminate.
  - reflexivity.
  - rewrite !andb_true_iff. intros [Hc Hm] [Hp Hw]. split.
    + now apply (char_match_word ic p c).
    + now apply IH.
Qed.

Lemma literal_eq_exact (w m : string) :
  literal_eq false w m = true <-> m = w.
Proof.
  revert m; induction w as [|p w IH]; intros [|c m]; simpl;
    try (split; [discriminate | intros H; discriminate H]).
  - split; reflexivity.
  - unfold char_match. rewrite andb_true_iff, Ascii.eqb_eq, IH.
    split; [intros [-> ->]; reflexivity | intros H; now injection H].
Qed.

Lemma forall_chars_last (p : ascii -> bool) (s : string) (c : ascii) :
  forall_chars p s = true -> last_char s = Some c -> p c = true.
Proof.
  induction s as [|x s IH]; simpl; [discriminate|].
  rewrite andb_true_iff. intros [Hx Hs]. destruct s.
  - intros H. injection H as <-. assumption.
  - now apply IH.
Qed.

Lemma forall_chars_word (wc : ascii -> bool) (s : string) :
  agrees_on_ascii wc ->
  forall_chars is_word_char s = true -> forall_chars wc s = true.
Proof.
  intros Hwc. induction s as [|c s IH]; simpl; [reflexivity|].
  rewrite !andb_true_iff. intros [Hc Hs]. split; [|now apply IH].
  rewrite (Hwc c (is_word_char_ascii c Hc)). exact Hc.
Qed.

(** Reading the literal consumes a prefix [m] equal to it. *)
Lemma match_literal_iff ic w text prev last rest :
  match_literal ic w text prev = Some (last, rest)
  <-> exists m, text = (m ++ rest)%string /\ literal_eq ic w m = true
                /\ last = last_or prev m.
Proof.
  revert text prev; induction w as [|p w IH]; intros text prev; simpl.
  - split.
    + intros H. injection H as <- <-. now exists "".
    + intros [[|c m] [-> [Hm ->]]]; [reflexivity | discriminate].
  - destruct text as [|c text].
    + split; [discriminate|]. intros [[|c m] [Ht [Hm _]]]; discriminate.
    + destruct (char_match ic p c) eqn:Hc.
      * rewrite IH. split.
        -- intros [m [-> [Hm ->]]]. exists (String c m).
           simpl. rewrite Hc, last_or_cons. auto.
        -- intros [[|c' m] [Ht [Hm ->]]]; [discriminate|].
           simpl in Ht. injection Ht as <- ->. simpl in Hm.
           rewrite Hc in Hm. exists m. rewrite last_or_cons. auto.
      * split; [discriminate|].
        intros [[|c' m] [Ht [Hm _]]]; [discriminate|].
        simpl in Ht. injection Ht as <- ->. simpl in Hm.
        rewrite Hc in Hm. discriminate.
Qed.

(** A match of an identifier starts and ends with a word character. *)
Lemma identifier_match_ends wc ic w m :
  agrees_on_ascii wc ->
  identifier w = true -> literal_eq ic w m = true ->
  (forall post, word_at wc (head (m ++ post)) = true)
  /\ (forall prev, word_at wc (last_or prev m) = true).
Proof.
  unfold identifier. rewrite andb_true_iff, negb_true_iff, String.eqb_neq.
  intros Hwc [Hne Hw] Hm.
  pose proof (forall_chars_word wc m Hwc (literal_eq_word ic w m Hm Hw))
    as Hmw.
  destruct w as [|p w]; [congruence|].
  destruct m as [|c m]; [discriminate|]. split.
  - intros post. simpl in *. now apply andb_true_iff in Hmw.
  - intros prev. unfold last_or.
    destruct (last_char (String c m)) as [x|] eqn:Hl.
    + simpl. now apply (forall_chars_last _ _ _ Hmw Hl).
    + destruct (last_char_cons c m) as [y Hy]. congruence.
Qed.

Lemma search_word_iff wc ic w prev text :
  agrees_on_ascii wc ->
  identifier w = true ->
  search_word wc ic w prev text = true
  <-> exists pre m post,
        text = (pre ++ m ++ post)%string /\ literal_eq ic w m = true
        /\ word_at wc (last_or prev pre) = false
        /\ word_at wc (head post) = false.
Proof.
  intros Hwc Hid.
  assert (Hhere : forall prev text,
    match_word_here wc ic w prev text = true
    <-> exists m post, text = (m ++ post)%string /\ literal_eq ic w m = true
          /\ word_at wc prev = false /\ word_at wc (head post) = false).
  { clear prev text. intros prev text. unfold match_word_here, at_boundary.
    split.
    - rewrite andb_true_iff. intros [Hb Hm].
      destruct (match_literal ic w text prev) as [[last rest]|] eqn:E;
        [|discriminate].
      apply match_literal_iff in E as [m [-> [Hlit ->]]].
      destruct (identifier_match_ends wc ic w m Hwc Hid Hlit) as [Hh Hl].
      rewrite Hh in Hb. rewrite Hl in Hm.
      exists m, rest. repeat split; try assumption.
      + now destruct (word_at wc prev).
      + now destruct (word_at wc (head rest)).
    - intros [m [post [-> [Hlit [Hp Hpost]]]]].
      destruct (identifier_match_ends wc ic w m Hwc Hid Hlit) as [Hh Hl].
      rewrite Hh, Hp. simpl.
      assert (E : match_literal ic w (m ++ post) prev
                  = Some (last_or prev m, post)).
      { apply match_literal_iff. now exists m. }
      rewrite E, Hl, Hpost. reflexivity. }
  revert prev; induction text as [|c text IH]; intros prev;
    cbn [search_word]; rewrite orb_true_iff, Hhere.
  - split.
    + intros [[m [post [Ht H]]] | H]; [|discriminate].
      exists "", m, post. split; [exact Ht | exact H].
    + intros [[|x pre] [m [post [Ht H]]]]; [|discriminate].
      left. exists m, post. split; [exact Ht | exact H].
  - rewrite IH. split.
    + intros [[m [post [Ht H]]] | [pre [m [post [Ht H]]]]].
      * exists "", m, post. split; [exact Ht | exact H].
      * subst text. exists (String c pre), m, post. rewrite last_or_cons.
        split; [reflexivity | exact H].
    + intros [[|x pre] [m [post [Ht H]]]].
      * left. exists m, post. split; [exact Ht | exact H].
      * right. simpl in Ht. injection Ht as <- ->.
        rewrite last_or_cons in H. exists pre, m, post.
        split; [reflexivity | exact H].
Qed.

(** [word_search] decides whole-word occurrence of an identifier. *)
Lemma word_search_iff wc ic w text :
  agrees_on_ascii wc ->
  identifier w = true ->
  word_search wc ic w text = true <-> whole_word_occurrence wc ic w text.
Proof.
  intros Hwc Hid. unfold word_search, whole_word_occurrence.
  rewrite (search_word_iff wc ic w None text Hwc Hid).
  split; intros [pre [m [post [Ht [Hm [Hp Hq]]]]]]; exists pre, m, post;
    repeat split; try assumption; unfold last_or in *;
    destruct (last_char pre); assumption.
Qed.

Lemma forall_chars_app (p : ascii -> bool) (a b : string) :
  forall_chars p (a ++ b) = forall_chars p a && forall_chars p b.
Proof.
  induction a as [|c a IH]; simpl; [reflexivity|].
  now rewrite IH, andb_assoc.
Qed.

Lemma word_at_ascii (wc : ascii -> bool) (c : option ascii) :
  agrees_on_ascii wc ->
  (forall x, c = Some x -> is_ascii x = true) ->
  word_at wc c = word_at is_word_char c.
Proof.
  intros Hwc Hc. destruct c as [x|]; [|reflexivity].
  simpl. apply Hwc, Hc. reflexivity.
Qed.

(** On 7-bit text every class of word characters that agrees there gives
    the same whole-word occurrences. *)
Lemma whole_word_occurrence_ascii wc ic w text :
  agrees_on_ascii wc -> ascii_text text = true ->
  whole_word_occurrence wc ic w text
  <-> whole_word_occurrence is_word_char ic w text.
Proof.
  intros Hwc Hascii. unfold whole_word_occurrence.
  assert (Hsame : forall pre m post,
    text = (pre ++ m ++ post)%string ->
    word_at wc (last_char pre) = word_at is_word_char (last_char pre)
    /\ word_at wc (head post) = word_at is_word_char (head post)).
  { intros pre m post ->. unfold ascii_text in Hascii.
    rewrite !forall_chars_app, !andb_true_iff in Hascii.
    destruct Hascii as [Hpre [_ Hpost]]. split; apply word_at_ascii;
      try assumption.
    - intros x Hx. exact (forall_chars_last _ _ _ Hpre Hx).
    - intros x Hx. destruct post as [|c post]; [discriminate|].
      simpl in Hx, Hpost. injection Hx as <-.
      now apply andb_true_iff in Hpost. }
  split; intros [pre [m [post [Ht [Hm [Hp Hq]]]]]]; exists pre, m, post;
    destruct (Hsame pre m post Ht) as [H1 H2];
    repeat split; try assumption; congruence.
Qed.

Lemma is_word_char_agrees : agrees_on_ascii is_word_char.
Proof. intros c _. reflexivity. Qed.

(** The model matcher has the reference behaviour on word patterns. *)
Lemma strip_trailing_b_append (w : string) :
  strip_trailing_b (w ++ "\b") = Some w.
Proof.
  induction w as [|c w IH]; [reflexivity|].
  cbn [append strip_trailing_b]. rewrite IH.
  destruct (String.eqb_spec (String c (w ++ "\b")) "\b") as [E|_];
    [|reflexivity].
  injection E as _ E. destruct w as [|x [|y w]]; discriminate.
Qed.

Lemma model_search_word_boundary (ic : bool) (w text : string) :
  identifier w = true ->
  model_search ("\b" ++ w ++ "\b") text ic
  = word_search is_word_char ic w text.
Proof.
  intros Hid. unfold model_search.
  change (unword_pattern ("\b" ++ w ++ "\b"))
    with (strip_trailing_b (w ++ "\b")).
  now rewrite strip_trailing_b_append, Hid.
Qed.

(** * The claims *)

(** What the code does when the parser raises [SyntaxError]: whatever the
    registry, [analyze_code] returns exactly one issue.  Its category is
    "syntax"; its severity is the string "error", which the presentation
    layer reads as the critical tier; its message is the fixed prefix
    "Fatal Syntax Error: " followed by the parser's message; its line is
    the line number the parser reports, or 1 when it reports none
    ([SyntaxError.lineno] is 1-indexed; a [lineno] of [None] or of 0 is
    no line number, and [e.lineno or 1] gives 1 for both).  Hence no
    pattern-rule or scaling issue is in the result. *)
Lemma syntax_error_short_circuit :
  forall (code : string) (lineno : option Z) (msg : string),
    ast_parse code = SyntaxError lineno msg ->
    exists i : Issue,
      (forall self, analyze_code code self = (Return [i], self))
      /\ category i = "syntax"
      /\ severity i = "error"
      /\ severity_tier (severity i) = Some TierCritical
      /\ issue i = ("Fatal Syntax Error: " ++ msg)%string
      /\ prefix "Fatal Syntax Error: " (issue i) = true
      /\ (forall n, lineno = Some n -> n <> 0%Z -> line i = n)
      /\ (lineno = None \/ lineno = Some 0%Z -> line i = 1%Z).
Proof.
  intros code lineno msg Hparse.
  eexists. split.
  - intros self. apply (analyze_code_syntax code self lineno msg Hparse).
  - cbn [category severity issue line].
    repeat match goal with |- _ /\ _ => split end; try reflexivity.
    + apply prefix_iff. now exists msg.
    + intros n -> Hn. simpl. apply Z.eqb_neq in Hn. now rewrite Hn.
    + intros [-> | ->]; reflexivity.
Qed.

(** C1 (code defect).  The comment in [analyze_code] says of the parse
    "If it fails, it's a syntax error", and [_ast_analysis] promises a
    list; yet [_ast_analysis] catches [SyntaxError] only.  When
    [ast.parse] fails with any other exception, no issue is returned, for
    any registry: the exception reaches the caller of [analyze_code]. *)
Theorem parse_exception_escapes :
  forall (code : string) (e : exn),
    ast_parse code = ParseRaises e ->
    forall self,
      analyze_code code self = (Raise e, self)
      /\ _ast_analysis code self = (Raise e, self).
Proof.
  intros code e Hparse self. split.
  - pose proof (analyze_code_cases code self) as H. now rewrite Hparse in H.
  - unfold _ast_analysis. now rewrite Hparse.
Qed.

(** C6. Deduplication: in the list [analyze_code] returns, no two issues
    have both the same message and the same line.  On a valid input the
    list is the deduplication of the accumulated issues, and with a
    registry whose patterns compile that list is returned; deduplication
    keeps the first-seen order: an issue is kept, after the ones kept before it,
    exactly when no earlier issue has its (message, line).  Category and
    severity take no part: of two issues with equal message and line the
    second is dropped whatever its category and severity. *)
Theorem deduplication_by_message_and_line :
  (forall self code issues,
      fst (analyze_code code self) = Return issues ->
      NoDup (map (fun i => (issue i, line i)) issues))
  /\ (forall self code issues,
         ast_parse code = ParseOk ->
         fst (analyze_code code self) = Return issues ->
         issues = _deduplicate_issues (collected_issues code (rules self)))
  /\ (forall self code,
         ast_parse code = ParseOk ->
         registry_compiles (rules self) = true ->
         analyze_code code self
         = (Return (_deduplicate_issues (collected_issues code (rules self))),
            self))
  /\ _deduplicate_issues [] = []
  /\ (forall l i,
         _deduplicate_issues (l ++ [i])
         = _deduplicate_issues l
           ++ (if existsb (fun j => (issue j =? issue i)%string
                                    && (line j =? line i)%Z) l
               then [] else [i]))
  /\ (forall a b,
         issue a = issue b -> line a = line b ->
         _deduplicate_issues [a; b] = [a]).
Proof.
  repeat split.
  - intros self code issues H.
    destruct (ast_parse code) as [|lineno msg|e] eqn:E.
    + rewrite (analyze_code_returned code self issues E H).
      apply deduplicate_NoDup.
    + rewrite (analyze_code_syntax code self lineno msg E) in H. simpl in H.
      injection H as <-. simpl. constructor; [intros [] | constructor].
    + pose proof (analyze_code_cases code self) as Hc. rewrite E in Hc.
      rewrite Hc in H. discriminate H.
  - intros self code issues E H. now apply analyze_code_returned.
  - intros self code E Hreg. now apply analyze_code_valid.
  - intros l i. rewrite deduplicate_snoc. f_equal.
    replace (seen_mem (identifier_of i) (map identifier_of l))
      with (existsb (fun j => (issue j =? issue i)%string
                              && (line j =? line i)%Z) l);
      [reflexivity|].
    unfold seen_mem. induction l as [|j l IH]; simpl; [reflexivity|].
    rewrite IH. f_equal. unfold identifier_eqb, identifier_of. simpl.
    now rewrite String.eqb_sym, Z.eqb_sym.
  - intros a b Hmsg Hline.
    change [a; b] with ([a] ++ [b]). rewrite deduplicate_snoc.
    unfold seen_mem, identifier_eqb, identifier_of. simpl.
    rewrite Hmsg, Hline, String.eqb_refl, Z.eqb_refl. reflexivity.
Qed.

(** C9. Determinism: two invocations of [analyze_code] in a row on the
    same object and the same input have the same outcome.  When the first
    returns a list, the second returns the same list, element for element
    and in the same order; when the first raises, the second raises the
    same exception.  A method can write the object, as [__init__] does;
    [analyze_code] only reads it, so the second call finds the registry
    the first one found. *)
Theorem analyze_code_deterministic :
  forall self code,
    fst (analyze_code code (snd (analyze_code code self)))
    = fst (analyze_code code self)
    /\ (forall issues,
           fst (analyze_code code self) = Return issues ->
           analyze_twice code self = (Return (issues, issues), self)).
Proof.
  intros self code. pose proof (analyze_code_frame code self) as Hframe.
  split; [now rewrite Hframe|].
  intros issues Hrun. unfold analyze_twice, bind.
  destruct (analyze_code code self) as [o self'] eqn:E.
  simpl in Hframe, Hrun. subst o self'. now rewrite E.
Qed.





(** What a pair adds is one issue when the pattern matches the whole text
    case-insensitively, and nothing otherwise. *)
Lemma pattern_issue_cases code lines details category pattern message :
  pattern_issue code lines details category (pattern, message)
  = if re_search pattern code true
    then [ {| line := first_matching_line lines pattern;
              issue := message;
              severity := get_or (Rule.severity details) "suggestion";
              category := category |} ]
    else [].
Proof.
  unfold pattern_issue, check_pattern.
  now destruct (re_search pattern code true).
Qed.

Lemma check_category_patterns code lines category details pms :
  Rule.patterns details = Some pms ->
  check_category code lines [] (category, details)
  = pattern_issues code lines details category pms.
Proof. intros H. unfold check_category, pattern_issues. now rewrite H. Qed.

(** The pattern checks, laid out around one pair of one category. *)
Lemma pattern_checks_split code lines r1 category details r2 p1 pm p2 :
  Rule.patterns details = Some (p1 ++ pm :: p2) ->
  pattern_checks code lines (r1 ++ (category, details) :: r2)
  = pattern_checks code lines r1
    ++ pattern_issues code lines details category p1
    ++ pattern_issue code lines details category pm
    ++ pattern_issues code lines details category p2
    ++ pattern_checks code lines r2.
Proof.
  intros H. unfold pattern_checks.
  rewrite (fold_appends_split _ (check_category_appends code lines)).
  f_equal. rewrite (check_category_patterns _ _ _ _ _ H).
  unfold pattern_issues at 1.
  rewrite (fold_appends_split _ (check_pattern_appends code lines _ _)).
  unfold pattern_issues, pattern_issue. now rewrite <- !app_assoc.
Qed.

(** C2. Pattern rules.  On a valid input, with a registry whose patterns
    compile, for every category of the registry and every (pattern,
    message) pair of its patterns, the pair
    adds to the accumulated issues, at its place in registry order,
    exactly one issue if the pattern matches somewhere in the whole text
    case-insensitively and none otherwise.  That issue has the rule's
    message, severity and category; its line is the 1-based number of the
    first line the pattern matches case-insensitively, or 1 when it
    matches no single line.  The returned list is the deduplication of
    the accumulated issues and then holds exactly one issue with that
    message at that line. *)
Theorem pattern_rule_emission :
  forall self code r1 cat details r2 p1 pattern message p2,
    ast_parse code = ParseOk ->
    registry_compiles (rules self) = true ->
    rules self = r1 ++ (cat, details) :: r2 ->
    Rule.patterns details = Some (p1 ++ (pattern, message) :: p2) ->
    let lines := splitlines code in
    let emitted := pattern_issue code lines details cat (pattern, message) in
    collected_issues code (rules self)
    = pattern_checks code lines r1
      ++ pattern_issues code lines details cat p1
      ++ emitted
      ++ pattern_issues code lines details cat p2
      ++ pattern_checks code lines r2
      ++ match dict_lookup "feature_scaling" (rules self) with
         | Some rule_info => scaling_checks code lines rule_info
         | None => []
         end
    /\ fst (analyze_code code self)
       = Return (_deduplicate_issues (collected_issues code (rules self)))
    /\ (re_search pattern code true = true <-> exists i, emitted = [i])
    /\ (re_search pattern code true = false <-> emitted = [])
    /\ (forall i, In i emitted ->
          issue i = message
          /\ severity i = get_or (Rule.severity details) "suggestion"
          /\ category i = cat
          /\ first_line_where (fun l => re_search pattern l true) lines (line i))
    /\ (re_search pattern code true = true ->
        exists n issues,
          first_line_where (fun l => re_search pattern l true) lines n
          /\ fst (analyze_code code self) = Return issues
          /\ count_identifier (message, n) issues = 1%nat).
Proof.
  intros self code r1 cat details r2 p1 pattern message p2 Hparse Hreg Hrules
         Hpms lines emitted.
  assert (Hcollected :
    collected_issues code (rules self)
    = pattern_checks code lines r1
      ++ pattern_issues code lines details cat p1
      ++ emitted
      ++ pattern_issues code lines details cat p2
      ++ pattern_checks code lines r2
      ++ match dict_lookup "feature_scaling" (rules self) with
         | Some rule_info => scaling_checks code lines rule_info
         | None => []
         end).
  { unfold collected_issues. fold lines. rewrite Hrules at 1.
    rewrite (pattern_checks_split code lines r1 cat details r2 p1
               (pattern, message) p2 Hpms).
    fold emitted. now rewrite <- !app_assoc. }
  assert (Hrun : fst (analyze_code code self)
    = Return (_deduplicate_issues (collected_issues code (rules self)))).
  { now rewrite (analyze_code_valid code self Hparse Hreg). }
  pose proof (pattern_issue_cases code lines details cat pattern message)
    as Hcases. fold emitted in Hcases.
  repeat match goal with |- _ /\ _ => split end.
  - exact Hcollected.
  - exact Hrun.
  - rewrite Hcases. destruct (re_search pattern code true); split.
    + intros _. eexists. reflexivity.
    + reflexivity.
    + discriminate.
    + intros [i Hi]. discriminate.
  - rewrite Hcases. destruct (re_search pattern code true); split;
      try discriminate; reflexivity.
  - rewrite Hcases. intros i Hi.
    destruct (re_search pattern code true); [|destruct Hi].
    destruct Hi as [<- | []]. simpl. repeat split.
    apply find_line_for_pattern_spec.
  - intros Hmatch.
    exists (first_matching_line lines pattern),
           (_deduplicate_issues (collected_issues code (rules self))).
    split; [apply find_line_for_pattern_spec | split; [exact Hrun|]].
    apply count_identifier_NoDup; [apply deduplicate_NoDup|].
    apply deduplicate_identifiers. rewrite Hcollected, Hcases, Hmatch.
    rewrite !map_app, !in_app_iff. right. right. left. now left.
Qed.

(** ** The scaling check *)

Lemma check_algorithm_cases code lines scalers algorithm full_name :
  check_algorithm code lines scalers [] (algorithm, full_name)
  = if re_search ("\b" ++ algorithm ++ "\b") code false
       && negb (any_scaler_in code scalers)
    then [scaling_issue full_name
            (first_matching_line lines ("\b" ++ algorithm ++ "\b"))]
    else [].
Proof.
  unfold check_algorithm, scaling_issue. now destruct (_ && _).
Qed.

(** The scaling checks, laid out around one algorithm. *)
Lemma scaling_checks_split code lines rule_info a1 item a2 :
  Rule.scale_sensitive_algorithms rule_info = Some (a1 ++ item :: a2) ->
  scaling_checks code lines rule_info
  = algorithm_issues code lines rule_info a1
    ++ check_algorithm code lines (get_or (Rule.scalers rule_info) []) [] item
    ++ algorithm_issues code lines rule_info a2.
Proof.
  intros H. unfold scaling_checks, algorithm_issues. rewrite H. simpl.
  apply fold_appends_split, check_algorithm_appends.
Qed.

Lemma any_scaler_in_false code scalers :
  any_scaler_in code scalers = false
  <-> forall scaler, In scaler scalers -> py_in scaler code = false.
Proof.
  unfold any_scaler_in. induction scalers as [|s scalers IH]; simpl.
  - split; [intros _ s [] | reflexivity].
  - rewrite orb_false_iff, IH. split.
    + intros [Hs Hrest] x [<- | Hx]; [assumption | now apply Hrest].
    + intros H. split; [apply H; now left | intros x Hx; apply H; now right].
Qed.

Lemma any_scaler_in_true code scalers :
  any_scaler_in code scalers = true
  <-> exists scaler pre post,
        In scaler scalers /\ code = (pre ++ scaler ++ post)%string.
Proof.
  unfold any_scaler_in. rewrite existsb_exists. split.
  - intros [s [Hin Hs]]. apply py_in_iff in Hs as [pre [post Hs]].
    now exists s, pre, post.
  - intros [s [pre [post [Hin Hs]]]]. exists s. split; [assumption|].
    apply py_in_iff. now exists pre, post.
Qed.

Lemma scaler_present_no_issue code lines scalers algorithms :
  any_scaler_in code scalers = true ->
  fold_left (check_algorithm code lines scalers) algorithms [] = [].
Proof.
  intros H. induction algorithms as [|[algorithm full_name] algorithms IH];
    [reflexivity|].
  rewrite (fold_appends_cons _ (check_algorithm_appends code lines scalers)).
  rewrite check_algorithm_cases, H, andb_false_r. exact IH.
Qed.

(** C4. Scaler suppression: on a valid input in which one of the scaling
    rule's listed scaler substrings occurs anywhere in the text, with a
    registry whose patterns compile, the
    scaling check adds no issue, for any scale-sensitive algorithm and
    whether or not its identifier occurs in the text; the returned list
    is the deduplication of the pattern issues alone. *)
Theorem scaler_suppresses_scaling_issues :
  forall self code rule_info scaler pre post,
    ast_parse code = ParseOk ->
    registry_compiles (rules self) = true ->
    dict_lookup "feature_scaling" (rules self) = Some rule_info ->
    In scaler (get_or (Rule.scalers rule_info) []) ->
    code = (pre ++ scaler ++ post)%string ->
    let lines := splitlines code in
    (forall algorithm full_name,
        check_algorithm code lines (get_or (Rule.scalers rule_info) []) []
          (algorithm, full_name) = [])
    /\ fst (_detect_scaling_issues code lines self) = Return []
    /\ fst (analyze_code code self)
       = Return (_deduplicate_issues (pattern_checks code lines (rules self))).
Proof.
  intros self code rule_info scaler pre post Hparse Hreg Hrule Hin Hocc lines.
  assert (Hany : any_scaler_in code (get_or (Rule.scalers rule_info) []) = true).
  { apply any_scaler_in_true. now exists scaler, pre, post. }
  assert (Hnone : scaling_checks code lines rule_info = []).
  { unfold scaling_checks. now apply scaler_present_no_issue. }
  repeat match goal with |- _ /\ _ => split end.
  - intros algorithm full_name.
    now rewrite check_algorithm_cases, Hany, andb_false_r.
  - now rewrite (detect_scaling_issues_run _ _ _ _ Hrule Hreg), Hnone.
  - rewrite (analyze_code_valid code self Hparse Hreg).
    unfold collected_issues. fold lines. now rewrite Hrule, Hnone, app_nil_r.
Qed.

(** What the scaling rule does, line lookup included: on a valid input
    whose registry has the scaling rule and patterns that compile, for every (algorithm identifier, full display name) pair
    of the rule, if the identifier occurs in the text as a whole-word
    match and no listed scaler substring occurs in the text, the scaling
    check adds, at the pair's place, exactly one issue with severity
    "warning", category "scaling" and a message that starts with the full
    display name.  Its line is the number of the first line that holds a
    whole-word match of the identifier compared case-insensitively, or 1
    when no line does; the detection itself is case-sensitive. *)
Lemma scaling_issue_emission :
  forall self code rule_info a1 algorithm full_name a2,
    ast_parse code = ParseOk ->
    registry_compiles (rules self) = true ->
    dict_lookup "feature_scaling" (rules self) = Some rule_info ->
    Rule.scale_sensitive_algorithms rule_info
      = Some (a1 ++ (algorithm, full_name) :: a2) ->
    re_search ("\b" ++ algorithm ++ "\b") code false = true ->
    (forall scaler, In scaler (get_or (Rule.scalers rule_info) []) ->
                    py_in scaler code = false) ->
    let lines := splitlines code in
    exists n,
      check_algorithm code lines (get_or (Rule.scalers rule_info) []) []
        (algorithm, full_name) = [scaling_issue full_name n]
      /\ first_line_where
           (fun l => re_search ("\b" ++ algorithm ++ "\b") l true) lines n
      /\ severity (scaling_issue full_name n) = "warning"
      /\ category (scaling_issue full_name n) = "scaling"
      /\ prefix full_name (issue (scaling_issue full_name n)) = true
      /\ line (scaling_issue full_name n) = n
      /\ fst (_detect_scaling_issues code lines self)
         = Return (algorithm_issues code lines rule_info a1
                   ++ [scaling_issue full_name n]
                   ++ algorithm_issues code lines rule_info a2)
      /\ fst (analyze_code code self)
         = Return (_deduplicate_issues
                     (pattern_checks code lines (rules self)
                      ++ algorithm_issues code lines rule_info a1
                      ++ [scaling_issue full_name n]
                      ++ algorithm_issues code lines rule_info a2)).
Proof.
  intros self code rule_info a1 algorithm full_name a2 Hparse Hreg Hrule
         Halgs Hmatch Hscalers lines.
  apply any_scaler_in_false in Hscalers.
  exists (first_matching_line lines ("\b" ++ algorithm ++ "\b")).
  assert (Hemit :
    check_algorithm code lines (get_or (Rule.scalers rule_info) []) []
      (algorithm, full_name)
    = [scaling_issue full_name
         (first_matching_line lines ("\b" ++ algorithm ++ "\b"))]).
  { now rewrite check_algorithm_cases, Hmatch, Hscalers. }
  assert (Hchecks := scaling_checks_split code lines rule_info a1
                       (algorithm, full_name) a2 Halgs).
  rewrite Hemit in Hchecks.
  repeat match goal with |- _ /\ _ => split end; try reflexivity.
  - exact Hemit.
  - apply find_line_for_pattern_spec.
  - apply prefix_iff. eexists. reflexivity.
  - now rewrite (detect_scaling_issues_run _ _ _ _ Hrule Hreg), Hchecks.
  - rewrite (analyze_code_valid code self Hparse Hreg).
    unfold collected_issues. fold lines. now rewrite Hrule, Hchecks.
Qed.

(** * Further properties of the methods *)

(** ** Where issues come from *)

Lemma fold_appends_flat_map {A B : Type} (f : list B -> A -> list B)
  (l : list A) :
  appends_only f -> fold_left f l [] = flat_map (f []) l.
Proof.
  intros Hf. induction l as [|x l IH]; [reflexivity|].
  rewrite (fold_appends_cons f Hf). simpl. now rewrite IH.
Qed.

Lemma pattern_issues_In code lines details cat pms i :
  In i (pattern_issues code lines details cat pms)
  <-> exists pattern message,
        In (pattern, message) pms
        /\ re_search pattern code true = true
        /\ i = {| line := first_matching_line lines pattern;
                  issue := message;
                  severity := get_or (Rule.severity details) "suggestion";
                  category := cat |}.
Proof.
  unfold pattern_issues.
  rewrite (fold_appends_flat_map _ _ (check_pattern_appends code lines _ _)).
  rewrite in_flat_map. split.
  - intros [[pattern message] [Hpm Hi]].
    change (In i (pattern_issue code lines details cat (pattern, message)))
      in Hi.
    rewrite pattern_issue_cases in Hi.
    destruct (re_search pattern code true) eqn:Hm; [|destruct Hi].
    destruct Hi as [<- | []]. now exists pattern, message.
  - intros [pattern [message [Hpm [Hm ->]]]].
    exists (pattern, message). split; [assumption|].
    change (In {| line := first_matching_line lines pattern;
                  issue := message;
                  severity := get_or (Rule.severity details) "suggestion";
                  category := cat |}
              (pattern_issue code lines details cat (pattern, message))).
    rewrite pattern_issue_cases, Hm. now left.
Qed.

(** The issues of the pattern loop are those of the matching pairs. *)
Lemma pattern_checks_In code lines registry i :
  In i (pattern_checks code lines registry)
  <-> exists cat details pms pattern message,
        In (cat, details) registry
        /\ Rule.patterns details = Some pms
        /\ In (pattern, message) pms
        /\ re_search pattern code true = true
        /\ i = {| line := first_matching_line lines pattern;
                  issue := message;
                  severity := get_or (Rule.severity details) "suggestion";
                  category := cat |}.
Proof.
  unfold pattern_checks.
  rewrite (fold_appends_flat_map _ _ (check_category_appends code lines)).
  rewrite in_flat_map. split.
  - intros [[cat details] [Hin Hi]].
    destruct (Rule.patterns details) as [pms|] eqn:E.
    + rewrite (check_category_patterns _ _ _ _ _ E) in Hi.
      apply pattern_issues_In in Hi as [pattern [message [Hpm [Hm ->]]]].
      now exists cat, details, pms, pattern, message.
    + unfold check_category in Hi. rewrite E in Hi. destruct Hi.
  - intros [cat [details [pms [pattern [message [Hin [E [Hpm [Hm ->]]]]]]]]].
    exists (cat, details). split; [assumption|].
    rewrite (check_category_patterns _ _ _ _ _ E).
    apply pattern_issues_In. now exists pattern, message.
Qed.

(** The issues of the scaling check are those of the algorithms found,
    and there are none when a scaler is present. *)
Lemma scaling_checks_In code lines rule_info i :
  In i (scaling_checks code lines rule_info)
  <-> exists algorithm full_name,
        In (algorithm, full_name)
           (get_or (Rule.scale_sensitive_algorithms rule_info) [])
        /\ re_search ("\b" ++ algorithm ++ "\b") code false = true
        /\ any_scaler_in code (get_or (Rule.scalers rule_info) []) = false
        /\ i = scaling_issue full_name
                 (first_matching_line lines ("\b" ++ algorithm ++ "\b")).
Proof.
  unfold scaling_checks.
  rewrite (fold_appends_flat_map _ _ (check_algorithm_appends code lines _)).
  rewrite in_flat_map. split.
  - intros [[algorithm full_name] [Hin Hi]].
    rewrite check_algorithm_cases in Hi.
    destruct (re_search ("\b" ++ algorithm ++ "\b") code false) eqn:Hm;
      [|destruct Hi].
    destruct (any_scaler_in code (get_or (Rule.scalers rule_info) [])) eqn:Hs;
      [destruct Hi|].
    destruct Hi as [<- | []]. now exists algorithm, full_name.
  - intros [algorithm [full_name [Hin [Hm [Hs ->]]]]].
    exists (algorithm, full_name). split; [assumption|].
    rewrite check_algorithm_cases, Hm, Hs. now left.
Qed.

Lemma first_match_from_bounds pattern lines i n :
  first_match_from i lines pattern = Some n ->
  (i <= n < i + Z.of_nat (List.length lines))%Z.
Proof.
  revert i; induction lines as [|l rest IH]; intros i; simpl; [discriminate|].
  destruct (re_search pattern l true).
  - intros H. injection H as <-. lia.
  - intros H. apply IH in H. lia.
Qed.

Lemma first_matching_line_bounds lines pattern :
  (1 <= first_matching_line lines pattern
   <= Z.max 1 (Z.of_nat (List.length lines)))%Z.
Proof.
  unfold first_matching_line.
  destruct (first_match_from 1 lines pattern) as [n|] eqn:E.
  - apply first_match_from_bounds in E. lia.
  - lia.
Qed.


Lemma collected_issue_line code registry i :
  In i (collected_issues code registry) ->
  exists pattern, line i = first_matching_line (splitlines code) pattern.
Proof.
  unfold collected_issues. rewrite in_app_iff. intros [H | H].
  - apply pattern_checks_In in H
      as [cat [details [pms [pattern [message [_ [_ [_ [_ ->]]]]]]]]].
    now exists pattern.
  - destruct (dict_lookup "feature_scaling" registry) as [rule_info|];
      [|destruct H].
    apply scaling_checks_In in H as [algorithm [full_name [_ [_ [_ ->]]]]].
    now exists ("\b" ++ algorithm ++ "\b")%string.
Qed.

(** X2. Lines of the returned issues.  On a valid input every returned
    issue is located between line 1 and the last line of the text (line 1
    for an empty text).  On any input no returned issue has line 0. *)
Theorem returned_lines_in_range :
  forall self code issues i,
    fst (analyze_code code self) = Return issues ->
    In i issues ->
    line i <> 0%Z
    /\ (ast_parse code = ParseOk ->
        (1 <= line i <= Z.max 1 (Z.of_nat (List.length (splitlines code))))%Z).
Proof.
  intros self code issues i Hrun Hi.
  destruct (ast_parse code) as [|lineno msg|e] eqn:E.
  - rewrite (analyze_code_returned code self issues E Hrun) in Hi.
    apply deduplicate_incl in Hi.
    apply collected_issue_line in Hi as [pattern ->].
    pose proof (first_matching_line_bounds (splitlines code) pattern) as Hb.
    split; [lia | intros _; exact Hb].
  - rewrite (analyze_code_syntax code self lineno msg E) in Hrun.
    simpl in Hrun. injection Hrun as <-. destruct Hi as [<- | []].
    split; [|discriminate]. simpl. unfold or_1.
    destruct lineno as [n|]; [|discriminate].
    destruct (n =? 0)%Z eqn:Hn; [discriminate|]. now apply Z.eqb_neq.
  - pose proof (analyze_code_cases code self) as Hc. rewrite E in Hc.
    rewrite Hc in Hrun. discriminate Hrun.
Qed.

(** X3. Every returned issue has a cause.  On a valid input each issue of
    the result is either the issue of a (pattern, message) pair of some
    category whose pattern matches the text case-insensitively, or the
    scaling issue of an algorithm of the scaling rule that is found in the
    text while no listed scaler is. *)
Theorem returned_issue_has_origin :
  forall self code issues i,
    ast_parse code = ParseOk ->
    fst (analyze_code code self) = Return issues ->
    In i issues ->
    (exists cat details pms pattern message,
        In (cat, details) (rules self)
        /\ Rule.patterns details = Some pms
        /\ In (pattern, message) pms
        /\ re_search pattern code true = true
        /\ i = {| line := first_matching_line (splitlines code) pattern;
                  issue := message;
                  severity := get_or (Rule.severity details) "suggestion";
                  category := cat |})
    \/ (exists rule_info algorithm full_name,
           dict_lookup "feature_scaling" (rules self) = Some rule_info
           /\ In (algorithm, full_name)
                (get_or (Rule.scale_sensitive_algorithms rule_info) [])
           /\ re_search ("\b" ++ algorithm ++ "\b") code false = true
           /\ (forall scaler, In scaler (get_or (Rule.scalers rule_info) []) ->
                              py_in scaler code = false)
           /\ i = scaling_issue full_name
                    (first_matching_line (splitlines code)
                       ("\b" ++ algorithm ++ "\b"))).
Proof.
  intros self code issues i Hparse Hrun Hi.
  rewrite (analyze_code_returned code self issues Hparse Hrun) in Hi.
  apply deduplicate_incl in Hi.
  unfold collected_issues in Hi. apply in_app_or in Hi as [H | H].
  - left. now apply pattern_checks_In in H.
  - right.
    destruct (dict_lookup "feature_scaling" (rules self)) as [rule_info|];
      [|destruct H].
    apply scaling_checks_In in H
      as [algorithm [full_name [Hin [Hm [Hs ->]]]]].
    exists rule_info, algorithm, full_name.
    repeat split; try assumption. now apply any_scaler_in_false.
Qed.

(** ** More on deduplication *)

Lemma seen_mem_app k s1 s2 :
  seen_mem k (s1 ++ s2) = seen_mem k s1 || seen_mem k s2.
Proof. unfold seen_mem. apply existsb_app. Qed.

(** Deduplicating a concatenation: the second part only adds the issues
    whose identifier the first part does not have. *)
Lemma deduplicate_app (l1 l2 : list Issue) :
  _deduplicate_issues (l1 ++ l2)
  = _deduplicate_issues l1
    ++ filter (fun i => negb (seen_mem (identifier_of i)
                                (map identifier_of l1)))
         (_deduplicate_issues l2).
Proof.
  induction l2 as [|i l2 IH] using rev_ind.
  - rewrite app_nil_r. change (_deduplicate_issues []) with (@nil Issue).
    simpl. now rewrite app_nil_r.
  - rewrite app_assoc, !deduplicate_snoc, IH, filter_app, map_app,
      seen_mem_app, <- app_assoc.
    f_equal. f_equal.
    destruct (seen_mem (identifier_of i) (map identifier_of l1)) eqn:E1;
      destruct (seen_mem (identifier_of i) (map identifier_of l2)) eqn:E2;
      simpl; try rewrite E1; reflexivity.
Qed.

Lemma deduplicate_length (l : list Issue) :
  (List.length (_deduplicate_issues l) <= List.length l)%nat.
Proof.
  induction l as [|i l IH] using rev_ind; [apply Nat.le_refl|].
  rewrite deduplicate_snoc, !length_app.
  destruct (seen_mem _ _); simpl; lia.
Qed.

Lemma deduplicate_distinct (l : list Issue) :
  NoDup (map identifier_of l) -> _deduplicate_issues l = l.
Proof.
  induction l as [|i l IH] using rev_ind; [reflexivity|].
  rewrite map_app. simpl. intros Hnd.
  pose proof (NoDup_remove_1 _ _ _ Hnd) as Hl.
  pose proof (NoDup_remove_2 _ _ _ Hnd) as Hi.
  rewrite app_nil_r in Hl, Hi.
  rewrite deduplicate_snoc, (IH Hl).
  destruct (seen_mem (identifier_of i) (map identifier_of l)) eqn:E;
    [|reflexivity].
  apply seen_mem_In in E. contradiction.
Qed.

(** X4. Deduplication leaves a list alone when no two of its issues share
    message and line; so deduplicating twice is the same as once. *)
Theorem deduplicate_issues_idempotent :
  (forall l,
      NoDup (map (fun i => (issue i, line i)) l) ->
      _deduplicate_issues l = l)
  /\ (forall l,
         _deduplicate_issues (_deduplicate_issues l) = _deduplicate_issues l).
Proof.
  split.
  - intros l H. now apply deduplicate_distinct.
  - intros l. apply deduplicate_distinct, deduplicate_NoDup.
Qed.

(** X5. Deduplication loses no message and invents none: every issue it
    returns is one of the given issues; every given issue is represented
    by a returned issue with the same message and line; and the issue
    kept for a (message, line) is the first one given, so an issue with no
    earlier issue of the same message and line is itself in the result. *)
Theorem deduplicate_issues_keeps_first :
  forall l,
    (forall i, In i (_deduplicate_issues l) -> In i l)
    /\ (forall i, In i l ->
          exists j, In j (_deduplicate_issues l)
                    /\ issue j = issue i /\ line j = line i)
    /\ (forall l1 i l2,
          l = l1 ++ i :: l2 ->
          (forall j, In j l1 -> ~ (issue j = issue i /\ line j = line i)) ->
          In i (_deduplicate_issues l)).
Proof.
  intros l. repeat match goal with |- _ /\ _ => split end.
  - intros i. apply deduplicate_incl.
  - intros i Hi.
    assert (Hk : In (identifier_of i) (map identifier_of (_deduplicate_issues l))).
    { apply deduplicate_identifiers. now apply in_map. }
    apply in_map_iff in Hk as [j [Hj Hin]].
    exists j. unfold identifier_of in Hj.
    split; [assumption | split; congruence].
  - intros l1 i l2 -> Hfirst.
    change (l1 ++ i :: l2) with (l1 ++ [i] ++ l2).
    rewrite app_assoc, deduplicate_app, deduplicate_snoc.
    apply in_or_app. left. apply in_or_app. right.
    destruct (seen_mem (identifier_of i) (map identifier_of l1)) eqn:E;
      [|now left].
    apply seen_mem_In, in_map_iff in E as [j [Hj Hin]].
    exfalso. apply (Hfirst j Hin). unfold identifier_of in Hj.
    split; congruence.
Qed.

(** X6. Order of the result.  On a valid input, with a registry whose
    patterns compile and which has the scaling rule, the result is the deduplicated pattern issues, in registry order,
    followed by the deduplicated scaling issues whose message and line no
    pattern issue has; without the scaling rule it is the deduplicated
    pattern issues. *)
Theorem analysis_patterns_before_scaling :
  forall self code,
    ast_parse code = ParseOk ->
    registry_compiles (rules self) = true ->
    let lines := splitlines code in
    let from_patterns := pattern_checks code lines (rules self) in
    (forall rule_info,
        dict_lookup "feature_scaling" (rules self) = Some rule_info ->
        fst (analyze_code code self)
        = Return
            (_deduplicate_issues from_patterns
             ++ filter
                  (fun i => negb (seen_mem (identifier_of i)
                                    (map identifier_of from_patterns)))
                  (_deduplicate_issues (scaling_checks code lines rule_info))))
    /\ (dict_lookup "feature_scaling" (rules self) = None ->
        fst (analyze_code code self)
        = Return (_deduplicate_issues from_patterns)).
Proof.
  intros self code Hparse Hreg lines from_patterns.
  rewrite (analyze_code_valid code self Hparse Hreg). unfold collected_issues.
  fold lines. fold from_patterns. split.
  - intros rule_info ->. simpl. now rewrite deduplicate_app.
  - intros ->. simpl. now rewrite app_nil_r.
Qed.

Lemma flat_map_length_le {A B : Type} (g : A -> list B) (l : list A) :
  (forall x, In x l -> (List.length (g x) <= 1)%nat) ->
  (List.length (flat_map g l) <= List.length l)%nat.
Proof.
  induction l as [|x l IH]; simpl; intros H; [apply Nat.le_refl|].
  rewrite length_app.
  pose proof (H x (or_introl eq_refl)).
  assert ((List.length (flat_map g l) <= List.length l)%nat).
  { apply IH. intros y Hy. apply H. now right. }
  lia.
Qed.

Lemma pattern_checks_length code lines registry :
  (List.length (pattern_checks code lines registry)
   <= List.length
        (flat_map (fun item : string * Rule.t =>
                     get_or (Rule.patterns (snd item)) []) registry))%nat.
Proof.
  unfold pattern_checks.
  rewrite (fold_appends_flat_map _ _ (check_category_appends code lines)).
  induction registry as [|[cat details] registry IH]; [apply Nat.le_refl|].
  cbn [flat_map snd]. rewrite !length_app.
  assert ((List.length (check_category code lines [] (cat, details))
           <= List.length (get_or (Rule.patterns details) []))%nat).
  { unfold check_category.
    destruct (Rule.patterns details) as [pms|]; [|apply Nat.le_refl]. simpl.
    rewrite (fold_appends_flat_map _ _ (check_pattern_appends code lines _ _)).
    apply flat_map_length_le. intros [pattern message] _.
    unfold check_pattern. destruct (re_search pattern code true); simpl; lia. }
  lia.
Qed.

Lemma scaling_checks_length code lines rule_info :
  (List.length (scaling_checks code lines rule_info)
   <= List.length (get_or (Rule.scale_sensitive_algorithms rule_info) []))%nat.
Proof.
  unfold scaling_checks.
  rewrite (fold_appends_flat_map _ _ (check_algorithm_appends code lines _)).
  apply flat_map_length_le. intros [algorithm full_name] _.
  rewrite check_algorithm_cases. destruct (_ && _); simpl; lia.
Qed.

(** X7. Size of the result.  On a valid input the number of returned
    issues is at most the number of (pattern, message) pairs of the
    registry plus the number of algorithms of the scaling rule: a rule
    reports at most once, however many lines it matches. *)
Theorem issue_count_bounded :
  forall self code issues,
    ast_parse code = ParseOk ->
    fst (analyze_code code self) = Return issues ->
    (List.length issues
     <= List.length
          (flat_map (fun item : string * Rule.t =>
                       get_or (Rule.patterns (snd item)) []) (rules self))
        + match dict_lookup "feature_scaling" (rules self) with
          | Some rule_info =>
              List.length
                (get_or (Rule.scale_sensitive_algorithms rule_info) [])
          | None => 0
          end)%nat.
Proof.
  intros self code issues Hparse Hrun.
  rewrite (analyze_code_returned code self issues Hparse Hrun).
  pose proof (deduplicate_length (collected_issues code (rules self))) as H.
  unfold collected_issues in *. rewrite length_app in H.
  pose proof (pattern_checks_length code (splitlines code) (rules self)).
  destruct (dict_lookup "feature_scaling" (rules self)) as [rule_info|].
  - pose proof (scaling_checks_length code (splitlines code) rule_info). lia.
  - simpl in H. lia.
Qed.


Lemma deduplicate_empty (l : list Issue) :
  _deduplicate_issues l = [] <-> l = [].
Proof.
  split; [|intros ->; reflexivity].
  intros H. destruct l as [|i l]; [reflexivity|]. exfalso.
  assert (Hk : In (identifier_of i)
                 (map identifier_of (_deduplicate_issues (i :: l)))).
  { apply deduplicate_identifiers. now left. }
  rewrite H in Hk. destruct Hk.
Qed.

Lemma empty_iff_no_member {A : Type} (l : list A) :
  l = [] <-> forall x, ~ In x l.
Proof.
  split; [intros -> x [] |].
  destruct l as [|x l]; [reflexivity|]. intros H. destruct (H x). now left.
Qed.

(** X10. Clean code.  On a valid input, with a registry whose patterns
    compile, the result is empty exactly when
    no pattern of the registry matches the text case-insensitively and,
    if the registry has the scaling rule, every algorithm of the rule
    found in the text comes with a listed scaler in the text. *)
Theorem no_issue_iff_nothing_matches :
  forall self code,
    ast_parse code = ParseOk ->
    registry_compiles (rules self) = true ->
    fst (analyze_code code self) = Return []
    <-> (forall cat details pms pattern message,
            In (cat, details) (rules self) ->
            Rule.patterns details = Some pms ->
            In (pattern, message) pms ->
            re_search pattern code true = false)
        /\ (forall rule_info algorithm full_name,
               dict_lookup "feature_scaling" (rules self) = Some rule_info ->
               In (algorithm, full_name)
                  (get_or (Rule.scale_sensitive_algorithms rule_info) []) ->
               re_search ("\b" ++ algorithm ++ "\b") code false = true ->
               exists scaler,
                 In scaler (get_or (Rule.scalers rule_info) [])
                 /\ py_in scaler code = true).
Proof.
  intros self code Hparse Hreg.
  rewrite (analyze_code_valid code self Hparse Hreg). simpl.
  assert (Hret : forall l : list Issue, Return l = Return [] <-> l = []).
  { intros l. split; [intros H; now injection H | now intros ->]. }
  rewrite Hret, deduplicate_empty. unfold collected_issues.
  split.
  - intros H. apply app_eq_nil in H as [Hp Hs]. split.
    + intros cat details pms pattern message Hin Hpms Hpm.
      destruct (re_search pattern code true) eqn:Hm; [|reflexivity].
      exfalso.
      apply (proj1 (empty_iff_no_member _) Hp
               {| line := first_matching_line (splitlines code) pattern;
                  issue := message;
                  severity := get_or (Rule.severity details) "suggestion";
                  category := cat |}).
      apply pattern_checks_In.
      now exists cat, details, pms, pattern, message.
    + intros rule_info algorithm full_name Hrule Hin Hm.
      rewrite Hrule in Hs.
      destruct (any_scaler_in code (get_or (Rule.scalers rule_info) []))
        eqn:Hany.
      * unfold any_scaler_in in Hany. apply existsb_exists in Hany.
        exact Hany.
      * exfalso.
        apply (proj1 (empty_iff_no_member _) Hs
                 (scaling_issue full_name
                    (first_matching_line (splitlines code)
                       ("\b" ++ algorithm ++ "\b")))).
        apply scaling_checks_In. now exists algorithm, full_name.
  - intros [Hp Hs].
    assert (Hp' : pattern_checks code (splitlines code) (rules self) = []).
    { apply empty_iff_no_member. intros i Hi.
      apply pattern_checks_In in Hi
        as [cat [details [pms [pattern [message [Hin [Hpms [Hpm [Hm _]]]]]]]]].
      rewrite (Hp cat details pms pattern message Hin Hpms Hpm) in Hm.
      discriminate. }
    rewrite Hp'. simpl.
    destruct (dict_lookup "feature_scaling" (rules self)) as [rule_info|];
      [|reflexivity].
    apply empty_iff_no_member. intros i Hi.
    apply scaling_checks_In in Hi
      as [algorithm [full_name [Hin [Hm [Hany _]]]]].
    destruct (Hs rule_info algorithm full_name eq_refl Hin Hm)
      as [scaler [Hsc Hpy]].
    rewrite (proj1 (any_scaler_in_false _ _) Hany scaler Hsc) in Hpy.
    discriminate.
Qed.

(** X11. Empty scaler.  The empty string is a substring of every text: a
    scaling rule that lists it among its scalers never reports, whatever
    the text (the patterns of the registry being such that [re] compiles
    them). *)
Theorem empty_scaler_disables_scaling_rule :
  forall self code lines rule_info,
    dict_lookup "feature_scaling" (rules self) = Some rule_info ->
    registry_compiles (rules self) = true ->
    In "" (get_or (Rule.scalers rule_info) []) ->
    fst (_detect_scaling_issues code lines self) = Return [].
Proof.
  intros self code lines rule_info Hrule Hreg Hin.
  rewrite (detect_scaling_issues_run _ _ _ _ Hrule Hreg). simpl. f_equal.
  unfold scaling_checks. apply scaler_present_no_issue.
  apply any_scaler_in_true. now exists "", "", code.
Qed.

(** ** Lines of a text *)

Lemma splitlines_from_other (cur : string) (c : ascii) (rest : string) :
  is_linebreak c = false ->
  splitlines_from cur (String c rest) = splitlines_from (cur ++ String c "") rest.
Proof. intros H. cbn [splitlines_from]. now rewrite H. Qed.

Lemma splitlines_from_lf (rest : string) :
  splitlines_from "" (String LF rest) = "" :: splitlines_from "" rest.
Proof.
  cbn [splitlines_from].
  change (is_linebreak LF) with true. cbv beta iota.
  change (Ascii.eqb LF CR) with false. cbn [andb].
  now destruct rest.
Qed.

(** After a line break the current line is closed and the rest is split
    on its own; of a CR LF pair the LF opens no line. *)
Lemma splitlines_from_linebreak (cur : string) (c : ascii) (rest : string) :
  is_linebreak c = true ->
  splitlines_from cur (String c rest) = cur :: splitlines_from "" rest
  \/ exists tl,
       splitlines_from cur (String c rest) = cur :: tl
       /\ splitlines_from "" rest = "" :: tl.
Proof.
  intros H. cbn [splitlines_from]. rewrite H.
  destruct rest as [|c2 rest']; [now left|].
  destruct (Ascii.eqb c CR && Ascii.eqb c2 LF) eqn:E; [|now left].
  right. apply andb_true_iff in E as [_ E]. apply Ascii.eqb_eq in E.
  subst c2. exists (splitlines_from "" rest').
  split; [reflexivity | apply splitlines_from_lf].
Qed.

Lemma splitlines_from_linebreak_incl cur c rest l :
  is_linebreak c = true ->
  In l (splitlines_from cur (String c rest)) ->
  l = cur \/ In l (splitlines_from "" rest).
Proof.
  intros Hc Hl.
  destruct (splitlines_from_linebreak cur c rest Hc) as [E | [tl [E1 E2]]].
  - rewrite E in Hl. destruct Hl as [<- | Hl]; [now left | now right].
  - rewrite E1 in Hl. rewrite E2.
    destruct Hl as [<- | Hl]; [now left | right; now right].
Qed.

Lemma splitlines_from_linebreak_In cur c rest l :
  is_linebreak c = true ->
  In l (splitlines_from "" rest) -> l <> "" ->
  In l (splitlines_from cur (String c rest)).
Proof.
  intros Hc Hl Hne.
  destruct (splitlines_from_linebreak cur c rest Hc) as [E | [tl [E1 E2]]].
  - rewrite E. now right.
  - rewrite E1. rewrite E2 in Hl.
    destruct Hl as [<- | Hl]; [congruence | now right].
Qed.

(** What holds of every character of a text holds of every character of
    its lines. *)
Lemma splitlines_from_forall_chars (p : ascii -> bool) (s cur l : string) :
  forall_chars p cur = true -> forall_chars p s = true ->
  In l (splitlines_from cur s) -> forall_chars p l = true.
Proof.
  revert cur; induction s as [|c rest IH]; intros cur Hcur Hs Hl.
  - simpl in Hl. destruct (cur =? "")%string; [destruct Hl|].
    now destruct Hl as [<- | []].
  - simpl in Hs. apply andb_true_iff in Hs as [Hc Hrest].
    destruct (is_linebreak c) eqn:E.
    + apply (splitlines_from_linebreak_incl _ _ _ _ E) in Hl
        as [-> | Hl]; [assumption|].
      now apply (IH "").
    + rewrite (splitlines_from_other _ _ _ E) in Hl.
      apply (IH (cur ++ String c "")%string); try assumption.
      rewrite forall_chars_app, Hcur. simpl. now rewrite Hc.
Qed.

Lemma splitlines_from_no_break (m b cur : string) :
  forall_chars (fun c => negb (is_linebreak c)) m = true ->
  splitlines_from cur (m ++ b) = splitlines_from (cur ++ m) b.
Proof.
  revert cur; induction m as [|c m IH]; intros cur Hm.
  - now rewrite append_empty_r.
  - simpl in Hm. apply andb_true_iff in Hm as [Hc Hm].
    apply negb_true_iff in Hc.
    change (String c m ++ b)%string with (String c (m ++ b)).
    rewrite (splitlines_from_other _ _ _ Hc), (IH _ Hm), append_assoc.
    reflexivity.
Qed.

Lemma append_not_empty_r (a b : string) : b <> "" -> (a ++ b)%string <> "".
Proof. intros Hb. destruct a; [assumption | discriminate]. Qed.

Lemma append_not_empty_l (a b : string) : a <> "" -> (a ++ b)%string <> "".
Proof. intros Ha. destruct a; [congruence | discriminate]. Qed.

(** The line being read, when it is not empty, ends at the first line
    break of the remaining text. *)
Lemma splitlines_from_first (b cur : string) :
  cur <> "" ->
  exists post rest,
    splitlines_from cur b = (cur ++ post)%string :: rest
    /\ (post = "" \/ head post = head b).
Proof.
  revert cur; induction b as [|d b IH]; intros cur Hcur.
  - exists "", []. split; [|now left]. simpl.
    apply String.eqb_neq in Hcur. now rewrite Hcur, append_empty_r.
  - destruct (is_linebreak d) eqn:E.
    + exists "". rewrite append_empty_r.
      destruct (splitlines_from_linebreak cur d b E) as [H | [tl [H _]]];
        eexists; (split; [exact H | now left]).
    + rewrite (splitlines_from_other _ _ _ E).
      destruct (IH (cur ++ String d "")%string) as [post [rest [H _]]].
      { now apply append_not_empty_r. }
      exists (String d post), rest. split; [|now right].
      rewrite H, append_assoc. reflexivity.
Qed.

Lemma last_char_app (a b : string) :
  b <> "" -> last_char (a ++ b) = last_char b.
Proof.
  intros Hb. induction a as [|c a IH]; [reflexivity|].
  change (String c a ++ b)%string with (String c (a ++ b)).
  destruct (a ++ b)%string as [|x s] eqn:E.
  - exfalso. now apply (append_not_empty_r a b Hb).
  - rewrite <- IH. reflexivity.
Qed.

(** A whole-word occurrence without line break lies on one line, as a
    whole word. *)
Lemma splitlines_from_occurrence (wc : ascii -> bool) (m b a cur : string) :
  forall_chars (fun c => negb (is_linebreak c)) m = true ->
  m <> "" ->
  word_at wc (last_char (cur ++ a)) = false ->
  word_at wc (head b) = false ->
  exists l pre post,
    In l (splitlines_from cur (a ++ m ++ b))
    /\ l = (pre ++ m ++ post)%string
    /\ word_at wc (last_char pre) = false
    /\ word_at wc (head post) = false.
Proof.
  intros Hm Hne. revert cur; induction a as [|c a IH]; intros cur Hpre Hpost.
  - rewrite append_empty_r in Hpre. cbn [append].
    rewrite (splitlines_from_no_break m b cur Hm).
    destruct (splitlines_from_first b (cur ++ m)%string)
      as [post [rest [H Hhead]]].
    { now apply append_not_empty_r. }
    exists ((cur ++ m) ++ post)%string, cur, post.
    rewrite H. repeat split.
    + now left.
    + apply append_assoc.
    + assumption.
    + destruct Hhead as [-> | ->]; [reflexivity | assumption].
  - change (String c a ++ m ++ b)%string with (String c (a ++ m ++ b)).
    destruct (is_linebreak c) eqn:E.
    + destruct (IH "") as [l [pre [post [Hin [Hl [H1 H2]]]]]].
      * destruct a as [|x a]; [reflexivity|].
        rewrite <- Hpre. cbn [append].
        change (cur ++ String c (String x a))%string
          with (cur ++ String c (String x a))%string.
        rewrite (last_char_app cur (String c (String x a))) by discriminate.
        reflexivity.
      * assumption.
      * exists l, pre, post. repeat split; try assumption.
        apply splitlines_from_linebreak_In; try assumption.
        rewrite Hl. apply append_not_empty_r. now apply append_not_empty_l.
    + rewrite (splitlines_from_other _ _ _ E).
      apply IH; [|assumption].
      rewrite append_assoc. exact Hpre.
Qed.

Lemma is_word_char_no_linebreak (c : ascii) :
  is_word_char c = true -> is_linebreak c = false.
Proof.
  destruct c as [[] [] [] [] [] [] [] []]; vm_compute; intros H;
    first [reflexivity | discriminate H].
Qed.

Lemma literal_eq_ignorecase (w m : string) :
  literal_eq false w m = true -> literal_eq true w m = true.
Proof.
  intros H. apply literal_eq_exact in H. subst m.
  induction w as [|c w IH]; [reflexivity|].
  simpl. rewrite IH. unfold char_match. now rewrite Ascii.eqb_refl.
Qed.

(** * Claims and properties on word patterns *)

(** ** Word patterns under the reference behaviour of [re]

    From here on the matching function is assumed to treat the pattern
    [\bw\b], for a plain identifier [w], as [re] does: the pattern
    compiles, and it finds [w] as a whole word.  [word_char] is its class
    [\w], which on 7-bit characters is letters, digits and the underscore.
    Matching up to letter case is assumed on 7-bit text only. *)

Variable word_char : ascii -> bool.

Hypothesis word_char_ascii : agrees_on_ascii word_char.

Hypothesis re_word_compiles :
  forall (ic : bool) (w : string),
    identifier w = true -> re_compiles ("\b" ++ w ++ "\b") ic = true.

Hypothesis re_word_boundary :
  forall (ic : bool) (w text : string),
    identifier w = true ->
    (ic = true -> ascii_text text = true) ->
    re_search ("\b" ++ w ++ "\b") text ic = word_search word_char ic w text.

Lemma no_exact_word_no_issue code lines scalers algorithm full_name :
  identifier algorithm = true ->
  ~ whole_word_occurrence word_char false algorithm code ->
  check_algorithm code lines scalers [] (algorithm, full_name) = [].
Proof.
  intros Hid Hnone. rewrite check_algorithm_cases.
  rewrite (re_word_boundary false algorithm code Hid)
    by (intros H; discriminate H).
  destruct (word_search word_char false algorithm code) eqn:E;
    [|reflexivity].
  apply (word_search_iff word_char false algorithm code word_char_ascii Hid)
    in E.
  contradiction.
Qed.

(** A turn of the scaling loop for a plain identifier returns. *)
Lemma algorithm_turn_identifier code lines scalers issues algorithm full_name
  self :
  identifier algorithm = true ->
  algorithm_turn code lines scalers issues (algorithm, full_name) self
  = (Return (check_algorithm code lines scalers issues (algorithm, full_name)),
     self).
Proof.
  intros Hid.
  destruct (algorithm_turn_cases code lines scalers issues algorithm
              full_name self) as [H | [[Hc | Hc] _]]; [assumption| |];
    rewrite (re_word_compiles _ algorithm Hid) in Hc; discriminate Hc.
Qed.

(** C5. Whole-word boundary: on a valid input, with a registry whose
    patterns compile, a scale-sensitive algorithm identifier that occurs
    in the text only inside longer words, every occurrence having a word
    character right before it or right after it, adds no scaling issue:
    the scaling check returns what the other algorithms add.  The word
    boundary is required on both sides of the identifier. *)
Theorem whole_word_boundary :
  forall self code rule_info a1 algorithm full_name a2,
    ast_parse code = ParseOk ->
    registry_compiles (rules self) = true ->
    identifier algorithm = true ->
    dict_lookup "feature_scaling" (rules self) = Some rule_info ->
    Rule.scale_sensitive_algorithms rule_info
      = Some (a1 ++ (algorithm, full_name) :: a2) ->
    (forall pre post,
        code = (pre ++ algorithm ++ post)%string ->
        word_at word_char (last_char pre) = true
        \/ word_at word_char (head post) = true) ->
    let lines := splitlines code in
    check_algorithm code lines (get_or (Rule.scalers rule_info) []) []
      (algorithm, full_name) = []
    /\ fst (_detect_scaling_issues code lines self)
       = Return (algorithm_issues code lines rule_info a1
                 ++ algorithm_issues code lines rule_info a2)
    /\ fst (analyze_code code self)
       = Return (_deduplicate_issues
                   (pattern_checks code lines (rules self)
                    ++ algorithm_issues code lines rule_info a1
                    ++ algorithm_issues code lines rule_info a2)).
Proof.
  intros self code rule_info a1 algorithm full_name a2 Hparse Hreg Hid
         Hrule Halgs Hinside lines.
  assert (Hemit :
    check_algorithm code lines (get_or (Rule.scalers rule_info) []) []
      (algorithm, full_name) = []).
  { apply no_exact_word_no_issue; try assumption.
    intros [pre [m [post [Hcode [Hm [Hpre Hpost]]]]]].
    apply literal_eq_exact in Hm. subst m.
    destruct (Hinside pre post Hcode); congruence. }
  assert (Hchecks := scaling_checks_split code lines rule_info a1
                       (algorithm, full_name) a2 Halgs).
  rewrite Hemit in Hchecks. simpl in Hchecks.
  repeat match goal with |- _ /\ _ => split end.
  - exact Hemit.
  - now rewrite (detect_scaling_issues_run _ _ _ _ Hrule Hreg), Hchecks.
  - rewrite (analyze_code_valid code self Hparse Hreg).
    unfold collected_issues. fold lines. now rewrite Hrule, Hchecks.
Qed.

(** For a plain identifier and 7-bit lines the line lookup returns the
    number of the first line that holds the identifier as a whole word in
    any letter case, and 1 when no line does. *)
Lemma find_line_ignores_case lines algorithm self :
  identifier algorithm = true ->
  (forall l, In l lines -> ascii_text l = true) ->
  _find_line_for_pattern lines ("\b" ++ algorithm ++ "\b") self
  = (Return (first_matching_line lines ("\b" ++ algorithm ++ "\b")), self)
  /\ first_line_where (word_search word_char true algorithm) lines
       (first_matching_line lines ("\b" ++ algorithm ++ "\b")).
Proof.
  intros Hid Hascii. split.
  - apply find_line_ok. now apply re_word_compiles.
  - pose proof (find_line_for_pattern_spec lines ("\b" ++ algorithm ++ "\b"))
      as Hspec.
    assert (Hsame : forall l, In l lines ->
              re_search ("\b" ++ algorithm ++ "\b") l true
              = word_search word_char true algorithm l).
    { intros l Hl. apply re_word_boundary; [assumption|].
      intros _. now apply Hascii. }
    destruct Hspec as [[k [l [Hk [Hm [Hfirst Hn]]]]] | [Hnone Hn]].
    + left. exists k, l. repeat split; try assumption.
      * rewrite <- Hsame; [assumption | now apply (nth_error_In _ k)].
      * intros j l' Hj Hnth. rewrite <- Hsame.
        -- now apply (Hfirst j).
        -- now apply (nth_error_In _ j).
    + right. split; [|assumption].
      intros l Hl. rewrite <- Hsame; [now apply Hnone | assumption].
Qed.

(** C7. Case sensitivity of the scaling rule.  The detection is
    case-sensitive: the turn of an identifier that occurs in the text as
    a whole word only in another letter case, with no case-exact
    whole-word occurrence, adds no issue.  The line lookup is
    case-insensitive: on 7-bit lines it returns the number of the first
    line that holds the identifier as a whole word in any letter case.
    So there is an input for which the scaling issue is reported at a
    line, not the first, that holds the identifier only in another letter
    case, while the case-exact whole-word occurrence is on a later
    line. *)
Theorem scaling_detection_case_sensitivity :
  (forall self code lines scalers issues algorithm full_name,
      identifier algorithm = true ->
      whole_word_occurrence word_char true algorithm code ->
      ~ whole_word_occurrence word_char false algorithm code ->
      algorithm_turn code lines scalers issues (algorithm, full_name) self
      = (Return issues, self))
  /\ (forall self lines algorithm,
         identifier algorithm = true ->
         (forall l, In l lines -> ascii_text l = true) ->
         exists n,
           _find_line_for_pattern lines ("\b" ++ algorithm ++ "\b") self
           = (Return n, self)
           /\ first_line_where (word_search word_char true algorithm) lines n)
  /\ (exists self code algorithm full_name n l,
         fst (_detect_scaling_issues code (splitlines code) self)
         = Return [scaling_issue full_name n]
         /\ (ast_parse code = ParseOk ->
             fst (analyze_code code self) = Return [scaling_issue full_name n])
         /\ (1 < n)%Z
         /\ nth_error (splitlines code) (Z.to_nat (n - 1)) = Some l
         /\ whole_word_occurrence word_char true algorithm l
         /\ ~ whole_word_occurrence word_char false algorithm l
         /\ (exists k l', nth_error (splitlines code) k = Some l'
                          /\ whole_word_occurrence word_char false algorithm l')
         /\ (forall k l', nth_error (splitlines code) k = Some l' ->
                          whole_word_occurrence word_char false algorithm l' ->
                          (n < Z.of_nat k + 1)%Z)).
Proof.
  repeat match goal with |- _ /\ _ => split end.
  - intros self code lines scalers issues algorithm full_name Hid _ Hnone.
    rewrite (algorithm_turn_identifier _ _ _ _ _ _ _ Hid).
    rewrite (check_algorithm_appends code lines scalers issues
               (algorithm, full_name)).
    rewrite (no_exact_word_no_issue _ _ _ _ _ Hid Hnone).
    now rewrite app_nil_r.
  - intros self lines algorithm Hid Hascii.
    destruct (find_line_ignores_case lines algorithm self Hid Hascii)
      as [Hrun Hline].
    eexists. split; [exact Hrun | exact Hline].
  - pose (algorithm := "KMeans").
    pose (l1 := "x = 0"). pose (l2 := "kmeans = 1").
    pose (l3 := "model = KMeans()").
    pose (code := (l1 ++ String LF (l2 ++ String LF l3))%string).
    pose (rule_info :=
            Rule.make None None (Some [(algorithm, "K-Means")]) None).
    pose (self := mkReviewer [("feature_scaling", rule_info)]).
    assert (Hws : forall ic text,
               ascii_text text = true ->
               word_search word_char ic algorithm text
               = word_search is_word_char ic algorithm text).
    { intros ic text Hascii. apply eq_true_iff_eq.
      rewrite (word_search_iff word_char ic algorithm text word_char_ascii
                 eq_refl).
      rewrite (word_search_iff is_word_char ic algorithm text
                 is_word_char_agrees eq_refl).
      apply whole_word_occurrence_ascii; assumption. }
    assert (Hocc : forall ic text,
               ascii_text text = true ->
               whole_word_occurrence word_char ic algorithm text
               <-> word_search is_word_char ic algorithm text = true).
    { intros ic text Hascii. rewrite <- (Hws ic text Hascii).
      symmetry. now apply word_search_iff. }
    assert (Hlines : splitlines code = [l1; l2; l3]) by reflexivity.
    assert (Hreg : registry_compiles (rules self) = true).
    { unfold registry_compiles, self, rule_info. simpl.
      now rewrite !(re_word_compiles _ algorithm eq_refl). }
    assert (Hcode : re_search ("\b" ++ algorithm ++ "\b") code false = true).
    { rewrite (re_word_boundary false algorithm code eq_refl)
        by (intros H; discriminate H).
      now rewrite Hws. }
    assert (Hl1 : re_search ("\b" ++ algorithm ++ "\b") l1 true = false).
    { rewrite (re_word_boundary true algorithm l1 eq_refl (fun _ => eq_refl)).
      now rewrite Hws. }
    assert (Hl2 : re_search ("\b" ++ algorithm ++ "\b") l2 true = true).
    { rewrite (re_word_boundary true algorithm l2 eq_refl (fun _ => eq_refl)).
      now rewrite Hws. }
    assert (Hdetect :
      scaling_checks code (splitlines code) rule_info
      = [scaling_issue "K-Means" 2]).
    { unfold scaling_checks, rule_info. cbn [Rule.scale_sensitive_algorithms
        Rule.scalers get_or fold_left].
      rewrite check_algorithm_cases, Hcode, Hlines.
      unfold first_matching_line. cbn [first_match_from].
      rewrite Hl1, Hl2. reflexivity. }
    exists self, code, algorithm, "K-Means", 2%Z, l2.
    repeat match goal with |- _ /\ _ => split end.
    + rewrite (detect_scaling_issues_run code _ self rule_info eq_refl Hreg).
      now rewrite Hdetect.
    + intros Hparse. rewrite (analyze_code_valid code self Hparse Hreg).
      unfold collected_issues. change (dict_lookup "feature_scaling" (rules self))
        with (Some rule_info). cbv beta iota. rewrite Hdetect. reflexivity.
    + reflexivity.
    + now rewrite Hlines.
    + now apply Hocc.
    + intros H. apply Hocc in H; [discriminate H | reflexivity].
    + exists 2%nat, l3. rewrite Hlines. split; [reflexivity|].
      now apply Hocc.
    + rewrite Hlines. intros [|[|[|k]]] l' Hnth Hex; simpl in Hnth.
      * injection Hnth as <-. apply Hocc in Hex; [discriminate Hex | reflexivity].
      * injection Hnth as <-. apply Hocc in Hex; [discriminate Hex | reflexivity].
      * lia.
      * destruct k; discriminate.
Qed.

(** X9. Location of a scaling issue.  For a plain identifier and 7-bit
    text, when the identifier is found in the text the line lookup never
    falls back: the reported number is that of a line of the text which
    holds the identifier as a whole word, in some letter case, and no
    line with the identifier in its exact case comes before it. *)
Theorem scaling_line_holds_identifier :
  forall self code algorithm,
    identifier algorithm = true ->
    ascii_text code = true ->
    re_search ("\b" ++ algorithm ++ "\b") code false = true ->
    exists k l,
      nth_error (splitlines code) k = Some l
      /\ _find_line_for_pattern (splitlines code) ("\b" ++ algorithm ++ "\b")
           self
         = (Return (Z.of_nat k + 1)%Z, self)
      /\ whole_word_occurrence word_char true algorithm l
      /\ (forall j l',
             nth_error (splitlines code) j = Some l' ->
             whole_word_occurrence word_char false algorithm l' ->
             (k <= j)%nat).
Proof.
  intros self code algorithm Hid Hascii Hfound.
  assert (Hline_ascii : forall l, In l (splitlines code) -> ascii_text l = true).
  { intros l Hl.
    apply (splitlines_from_forall_chars is_ascii code "" l); auto. }
  assert (Hline : forall l,
    In l (splitlines code) ->
    re_search ("\b" ++ algorithm ++ "\b") l true = true
    <-> whole_word_occurrence word_char true algorithm l).
  { intros l Hl.
    rewrite (re_word_boundary true algorithm l Hid
               (fun _ => Hline_ascii l Hl)).
    apply word_search_iff; assumption. }
  assert (Hexact_ic : forall l,
    whole_word_occurrence word_char false algorithm l ->
    whole_word_occurrence word_char true algorithm l).
  { intros l [pre [m [post [Hl [Hm H]]]]]. exists pre, m, post.
    split; [assumption | split; [now apply literal_eq_ignorecase | exact H]]. }
  assert (Hsome : exists l,
    In l (splitlines code)
    /\ whole_word_occurrence word_char false algorithm l).
  { rewrite (re_word_boundary false algorithm code Hid) in Hfound
      by (intros H; discriminate H).
    apply (word_search_iff word_char false algorithm code word_char_ascii Hid)
      in Hfound.
    destruct Hfound as [pre [m [post [Hcode [Hm [Hpre Hpost]]]]]].
    apply literal_eq_exact in Hm. subst m.
    assert (Hw : forall_chars is_word_char algorithm = true
                 /\ algorithm <> "").
    { unfold identifier in Hid. apply andb_true_iff in Hid as [Hne Hw].
      split; [assumption|].
      apply negb_true_iff in Hne. now apply String.eqb_neq. }
    destruct Hw as [Hw Hne].
    assert (Hnb : forall_chars (fun c => negb (is_linebreak c)) algorithm
                  = true).
    { clear - Hw. induction algorithm as [|c w IH]; [reflexivity|].
      simpl in *. apply andb_true_iff in Hw as [Hc Hw].
      now rewrite (is_word_char_no_linebreak c Hc), IH. }
    destruct (splitlines_from_occurrence word_char algorithm post pre ""
                Hnb Hne Hpre Hpost)
      as [l [pre' [post' [Hin [Hl [H1 H2]]]]]].
    exists l. split.
    - unfold splitlines. now rewrite Hcode.
    - exists pre', algorithm, post'.
      split; [assumption | split; [now apply literal_eq_exact | now split]]. }
  rewrite (find_line_ok _ _ self (re_word_compiles true algorithm Hid)).
  unfold first_matching_line.
  pose proof (first_match_from_spec ("\b" ++ algorithm ++ "\b")
                (splitlines code) 1) as Hspec.
  destruct (first_match_from 1 (splitlines code) ("\b" ++ algorithm ++ "\b"))
    as [n|].
  - destruct Hspec as [k [l [Hk [Hm [Hfirst Hn]]]]].
    exists k, l. repeat split.
    + assumption.
    + f_equal. f_equal. lia.
    + apply Hline; [now apply (nth_error_In _ k) | assumption].
    + intros j l' Hj Hocc.
      destruct (Nat.le_gt_cases k j) as [Hle | Hlt]; [assumption|].
      exfalso. pose proof (Hfirst j l' Hlt Hj) as Hno.
      assert (Hyes : re_search ("\b" ++ algorithm ++ "\b") l' true = true).
      { apply Hline; [now apply (nth_error_In _ j) | now apply Hexact_ic]. }
      congruence.
  - exfalso. destruct Hsome as [l [Hin Hocc]].
    pose proof (Hspec l Hin) as Hno.
    assert (Hyes : re_search ("\b" ++ algorithm ++ "\b") l true = true).
    { apply Hline; [assumption | now apply Hexact_ic]. }
    congruence.
Qed.

End Reviewer.

(** * Concrete runs

    The development instantiated with [example_parse], [model_compiles]
    and [model_search]; on the inputs below they agree with [ast.parse]
    and [re.search]. *)

Lemma model_search_contract :
  forall (ic : bool) (w text : string),
    identifier w = true ->
    (ic = true -> ascii_text text = true) ->
    model_search ("\b" ++ w ++ "\b") text ic
    = word_search is_word_char ic w text.
Proof. intros ic w text Hid _. now apply model_search_word_boundary. Qed.

Lemma model_compiles_contract :
  forall (ic : bool) (w : string),
    identifier w = true -> model_compiles ("\b" ++ w ++ "\b") ic = true.
Proof.
  intros ic w Hid. unfold model_compiles.
  change (unword_pattern ("\b" ++ w ++ "\b"))
    with (strip_trailing_b (w ++ "\b")).
  now rewrite strip_trailing_b_append, Hid.
Qed.

(** The NUL text: the parser's [ValueError] reaches the caller. *)
Lemma parse_exception_escapes_witness :
  example_parse nul_text
  = ParseRaises (ValueError "source code string cannot contain null bytes")
  /\ forall self,
       analyze_code example_parse model_compiles model_search nul_text self
       = (Raise (ValueError "source code string cannot contain null bytes"),
          self).
Proof.
  split; [reflexivity|]. intros self.
  exact (proj1 (parse_exception_escapes example_parse model_compiles
                  model_search nul_text _ eq_refl self)).
Defined.

(** One pattern rule, matched on the second line of the input. *)
Lemma pattern_rule_emission_witness :
  let details :=
    Rule.make (Some "warning")
      (Some [("fit_transform", "Possible data leakage")]) None None in
  let self := mkReviewer [("data_leakage", details)] in
  let code := ("x = 1" ++ String LF "scaler.Fit_Transform(X)")%string in
  example_parse code = ParseOk
  /\ registry_compiles model_compiles (rules self) = true
  /\ rules self = [] ++ ("data_leakage", details) :: []
  /\ Rule.patterns details
     = Some ([] ++ ("fit_transform", "Possible data leakage") :: [])
  /\ fst (analyze_code example_parse model_compiles model_search code self)
     = Return [ {| line := 2; issue := "Possible data leakage";
                   severity := "warning"; category := "data_leakage" |} ].
Proof.
  intros details self code.
  do 4 (split; [reflexivity|]).
  exact (eq_trans
           (proj1 (proj2 (pattern_rule_emission example_parse model_compiles
              model_search self code [] "data_leakage" details [] []
              "fit_transform" "Possible data leakage" []
              eq_refl eq_refl eq_refl eq_refl)))
           eq_refl).
Defined.

(** Two issues with the same message and line, of different category and
    severity: the first one stays. *)
Lemma deduplication_by_message_and_line_witness :
  let a := {| line := 3; issue := "m"; severity := "warning";
              category := "c1" |} in
  let b := {| line := 3; issue := "m"; severity := "info";
              category := "c2" |} in
  issue a = issue b /\ line a = line b /\ _deduplicate_issues [a; b] = [a].
Proof.
  intros a b. split; [reflexivity | split; [reflexivity|]].
  exact (proj2 (proj2 (proj2 (proj2 (proj2
           (deduplication_by_message_and_line example_parse model_compiles
              model_search)))))
           a b eq_refl eq_refl).
Defined.



(** An algorithm next to a listed scaler: no scaling issue. *)
Lemma scaler_suppresses_scaling_issues_witness :
  let rule_info :=
    Rule.make None None (Some [("KMeans", "K-Means")])
      (Some ["StandardScaler"]) in
  let self := mkReviewer [("feature_scaling", rule_info)] in
  let code := "m = KMeans(); s = StandardScaler()" in
  example_parse code = ParseOk
  /\ registry_compiles model_compiles (rules self) = true
  /\ dict_lookup "feature_scaling" (rules self) = Some rule_info
  /\ In "StandardScaler" (get_or (Rule.scalers rule_info) [])
  /\ code = ("m = KMeans(); s = " ++ "StandardScaler" ++ "()")%string
  /\ fst (analyze_code example_parse model_compiles model_search code self)
     = Return [].
Proof.
  intros rule_info self code.
  assert (Hin : In "StandardScaler" (get_or (Rule.scalers rule_info) []))
    by (left; reflexivity).
  do 3 (split; [reflexivity|]). split; [exact Hin|].
  split; [reflexivity|].
  exact (eq_trans
           (proj2 (proj2 (scaler_suppresses_scaling_issues example_parse
              model_compiles model_search self code rule_info
              "StandardScaler" "m = KMeans(); s = " "()"
              eq_refl eq_refl eq_refl Hin eq_refl)))
           eq_refl).
Defined.

(** C3 (code defect).  The scaling rule detects the algorithm with a
    case-sensitive search but takes the line from
    [_find_line_for_pattern], which always searches case-insensitively.
    On the three lines [x = 0], [kmeans = 1], [model = KMeans()] the
    issue for [KMeans] is reported at line 2, a line in which the
    detecting search finds nothing; the first line with the whole-word
    match is line 3. *)
Theorem scaling_issue_reported_off_match :
  let rule_info := Rule.make None None (Some [("KMeans", "K-Means")]) None in
  let self := mkReviewer [("feature_scaling", rule_info)] in
  let code :=
    ("x = 0" ++ String LF ("kmeans = 1" ++ String LF "model = KMeans()"))%string
  in
  example_parse code = ParseOk
  /\ model_search ("\b" ++ "KMeans" ++ "\b") code false = true
  /\ fst (analyze_code example_parse model_compiles model_search code self)
     = Return [scaling_issue "K-Means" 2]
  /\ nth_error (splitlines code) 1 = Some "kmeans = 1"
  /\ model_search ("\b" ++ "KMeans" ++ "\b") "kmeans = 1" false = false
  /\ first_line_where
       (fun l => model_search ("\b" ++ "KMeans" ++ "\b") l false)
       (splitlines code) 3.
Proof.
  intros rule_info self code.
  do 5 (split; [reflexivity|]).
  left. exists 2%nat, "model = KMeans()". repeat split.
  intros [|[|j]] l' Hj Hnth; [| |lia]; injection Hnth as <-; reflexivity.
Qed.

(** [KMeans] inside [KMeansPlusPlus] alone triggers nothing. *)
Lemma whole_word_boundary_witness :
  let rule_info := Rule.make None None (Some [("KMeans", "K-Means")]) None in
  let self := mkReviewer [("feature_scaling", rule_info)] in
  let code := "m = KMeansPlusPlus()" in
  example_parse code = ParseOk
  /\ registry_compiles model_compiles (rules self) = true
  /\ identifier "KMeans" = true
  /\ (forall pre post,
         code = (pre ++ "KMeans" ++ post)%string ->
         word_at is_word_char (last_char pre) = true
         \/ word_at is_word_char (head post) = true)
  /\ fst (analyze_code example_parse model_compiles model_search code self)
     = Return [].
Proof.
  intros rule_info self code.
  assert (Hinside : forall pre post,
             code = (pre ++ "KMeans" ++ post)%string ->
             word_at is_word_char (last_char pre) = true
             \/ word_at is_word_char (head post) = true).
  { intros pre post Hcode.
    destruct (word_at is_word_char (last_char pre)) eqn:Hpre; [now left|].
    destruct (word_at is_word_char (head post)) eqn:Hpost; [now right|].
    assert (Hocc : whole_word_occurrence is_word_char false "KMeans" code).
    { exists pre, "KMeans", post. repeat split; assumption. }
    apply (word_search_iff is_word_char false "KMeans" code
             is_word_char_agrees eq_refl) in Hocc.
    discriminate Hocc. }
  do 3 (split; [reflexivity|]). split; [exact Hinside|].
  exact (eq_trans
           (proj2 (proj2 (whole_word_boundary example_parse model_compiles
              model_search is_word_char is_word_char_agrees
              model_search_contract
              self code rule_info [] "KMeans" "K-Means" []
              eq_refl eq_refl eq_refl eq_refl eq_refl Hinside)))
           eq_refl).
Defined.

(** [kmeans] in lower case alone triggers nothing. *)
Lemma scaling_detection_case_sensitivity_witness :
  let self := mkReviewer [] in
  let code := "m = kmeans()" in
  identifier "KMeans" = true
  /\ whole_word_occurrence is_word_char true "KMeans" code
  /\ ~ whole_word_occurrence is_word_char false "KMeans" code
  /\ algorithm_turn model_compiles model_search code (splitlines code) [] []
       ("KMeans", "K-Means") self
     = (Return [], self).
Proof.
  intros self code.
  assert (Hic : whole_word_occurrence is_word_char true "KMeans" code).
  { now apply (word_search_iff is_word_char true "KMeans" code
                 is_word_char_agrees eq_refl). }
  assert (Hexact : ~ whole_word_occurrence is_word_char false "KMeans" code).
  { intros H.
    apply (word_search_iff is_word_char false "KMeans" code
             is_word_char_agrees eq_refl) in H.
    discriminate H. }
  split; [reflexivity|].
  split; [exact Hic|]. split; [exact Hexact|].
  exact (proj1 (scaling_detection_case_sensitivity example_parse
           model_compiles model_search is_word_char is_word_char_agrees
           model_compiles_contract model_search_contract)
           self code (splitlines code) [] [] "KMeans" "K-Means"
           eq_refl Hic Hexact).
Defined.

(** Two calls in a row on a text with one finding. *)
Lemma analyze_code_deterministic_witness :
  let details := Rule.make None (Some [("print", "Leftover print")])
                   None None in
  let self := mkReviewer [("style", details)] in
  let issues := [ {| line := 1; issue := "Leftover print";
                     severity := "suggestion"; category := "style" |} ] in
  fst (analyze_code example_parse model_compiles model_search "print(1)" self)
  = Return issues
  /\ analyze_twice example_parse model_compiles model_search "print(1)" self
     = (Return (issues, issues), self).
Proof.
  intros details self issues. split; [reflexivity|].
  exact (proj2 (analyze_code_deterministic example_parse model_compiles
                  model_search self "print(1)") issues eq_refl).
Defined.

(** [__init__] is what changes the object: after it the analysis runs on
    the loaded registry. *)
Lemma init_replaces_registry :
  let loaded :=
    [("style", Rule.make None (Some [("print", "Leftover print")])
                 None None)] in
  let self := mkReviewer [] in
  fst (analyze_code example_parse model_compiles model_search "print(1)" self)
  = Return []
  /\ snd (__init__ loaded self) <> self
  /\ fst (analyze_code example_parse model_compiles model_search "print(1)"
            (snd (__init__ loaded self)))
     = Return [ {| line := 1; issue := "Leftover print";
                   severity := "suggestion"; category := "style" |} ].
Proof.
  intros loaded self. split; [reflexivity|]. split; [|reflexivity].
  intros H. discriminate H.
Qed.

(** ** Concrete runs of the further properties *)


Lemma returned_lines_in_range_witness :
  let details :=
    Rule.make (Some "warning")
      (Some [("fit_transform", "Possible data leakage")]) None None in
  let self := mkReviewer [("data_leakage", details)] in
  let code := ("x = 1" ++ String LF "scaler.fit_transform(X)")%string in
  let i := {| line := 2; issue := "Possible data leakage";
              severity := "warning"; category := "data_leakage" |} in
  fst (analyze_code example_parse model_compiles model_search code self)
  = Return [i]
  /\ In i [i]
  /\ line i <> 0%Z
  /\ (1 <= line i <= Z.max 1 (Z.of_nat (List.length (splitlines code))))%Z.
Proof.
  intros details self code i.
  split; [reflexivity|]. split; [now left|].
  destruct (returned_lines_in_range example_parse model_compiles model_search
              self code [i] i eq_refl (or_introl eq_refl)) as [Hnz Hrange].
  split; [exact Hnz | exact (Hrange eq_refl)].
Defined.

Lemma returned_issue_has_origin_witness :
  let details :=
    Rule.make (Some "warning")
      (Some [("fit_transform", "Possible data leakage")]) None None in
  let self := mkReviewer [("data_leakage", details)] in
  let code := ("x = 1" ++ String LF "scaler.fit_transform(X)")%string in
  let i := {| line := 2; issue := "Possible data leakage";
              severity := "warning"; category := "data_leakage" |} in
  example_parse code = ParseOk
  /\ fst (analyze_code example_parse model_compiles model_search code self)
     = Return [i]
  /\ In i [i]
  /\ ((exists cat pattern,
          In (cat, details) (rules self)
          /\ model_search pattern code true = true /\ category i = cat)
      \/ exists rule_info,
           dict_lookup "feature_scaling" (rules self) = Some rule_info).
Proof.
  intros details self code i.
  do 2 (split; [reflexivity|]). split; [now left|].
  destruct (returned_issue_has_origin example_parse model_compiles
              model_search self code [i] i eq_refl eq_refl
              (or_introl eq_refl))
    as [[cat [d [pms [pattern [message [Hin [_ [_ [Hm Hi]]]]]]]]]
       | [rule_info [algorithm [full_name [Hrule _]]]]].
  - left. exists cat, pattern.
    destruct Hin as [Hin | []]. injection Hin as <- <-.
    split; [now left | split; [exact Hm | reflexivity]].
  - right. now exists rule_info.
Defined.

Lemma deduplicate_issues_idempotent_witness :
  let a := {| line := 3; issue := "m"; severity := "warning";
              category := "c1" |} in
  let b := {| line := 4; issue := "m"; severity := "warning";
              category := "c1" |} in
  NoDup (map (fun i => (issue i, line i)) [a; b])
  /\ _deduplicate_issues [a; b] = [a; b].
Proof.
  intros a b.
  assert (Hnd : NoDup (map (fun i => (issue i, line i)) [a; b])).
  { constructor.
    - intros [H | []]. discriminate H.
    - constructor; [intros [] | constructor]. }
  split; [exact Hnd|].
  exact (proj1 deduplicate_issues_idempotent [a; b] Hnd).
Defined.

Lemma deduplicate_issues_keeps_first_witness :
  let a := {| line := 3; issue := "m"; severity := "warning";
              category := "c1" |} in
  let b := {| line := 4; issue := "m"; severity := "info";
              category := "c2" |} in
  [a; b; a] = [a] ++ b :: [a]
  /\ (forall j, In j [a] -> ~ (issue j = issue b /\ line j = line b))
  /\ In b (_deduplicate_issues [a; b; a]).
Proof.
  intros a b.
  assert (Hfirst : forall j, In j [a] ->
                             ~ (issue j = issue b /\ line j = line b)).
  { intros j [<- | []] [_ H]. discriminate H. }
  split; [reflexivity|]. split; [exact Hfirst|].
  exact (proj2 (proj2 (deduplicate_issues_keeps_first [a; b; a]))
           [a] b [a] eq_refl Hfirst).
Defined.

Lemma analysis_patterns_before_scaling_witness :
  let details := Rule.make None (Some [("kmeans", "Clustering used")])
                   (Some [("KMeans", "K-Means")]) None in
  let self := mkReviewer [("feature_scaling", details)] in
  let code := "m = KMeans()" in
  example_parse code = ParseOk
  /\ registry_compiles model_compiles (rules self) = true
  /\ dict_lookup "feature_scaling" (rules self) = Some details
  /\ fst (analyze_code example_parse model_compiles model_search code self)
     = Return [ {| line := 1; issue := "Clustering used";
                   severity := "suggestion"; category := "feature_scaling" |};
                scaling_issue "K-Means" 1 ].
Proof.
  intros details self code.
  do 3 (split; [reflexivity|]).
  exact (eq_trans
           (proj1 (analysis_patterns_before_scaling example_parse
                     model_compiles model_search self code eq_refl eq_refl)
              details eq_refl)
           eq_refl).
Defined.

Lemma issue_count_bounded_witness :
  let details := Rule.make None (Some [("kmeans", "Clustering used")])
                   (Some [("KMeans", "K-Means")]) None in
  let self := mkReviewer [("feature_scaling", details)] in
  let code := ("m = KMeans()" ++ String LF "n = KMeans()")%string in
  let issues :=
    [ {| line := 1; issue := "Clustering used";
         severity := "suggestion"; category := "feature_scaling" |};
      scaling_issue "K-Means" 1 ] in
  example_parse code = ParseOk
  /\ fst (analyze_code example_parse model_compiles model_search code self)
     = Return issues
  /\ (List.length issues <= 1 + 1)%nat.
Proof.
  intros details self code issues.
  do 2 (split; [reflexivity|]).
  exact (issue_count_bounded example_parse model_compiles model_search self
           code issues eq_refl eq_refl).
Defined.


Lemma scaling_line_holds_identifier_witness :
  let code := ("kmeans = 1" ++ String LF "model = KMeans()")%string in
  let self := mkReviewer [] in
  identifier "KMeans" = true
  /\ ascii_text code = true
  /\ model_search ("\b" ++ "KMeans" ++ "\b") code false = true
  /\ exists k l,
       nth_error (splitlines code) k = Some l
       /\ _find_line_for_pattern model_compiles model_search
            (splitlines code) ("\b" ++ "KMeans" ++ "\b") self
          = (Return (Z.of_nat k + 1)%Z, self)
       /\ whole_word_occurrence is_word_char true "KMeans" l.
Proof.
  intros code self. do 3 (split; [reflexivity|]).
  destruct (scaling_line_holds_identifier model_compiles model_search
              is_word_char is_word_char_agrees model_compiles_contract
              model_search_contract self code "KMeans"
              eq_refl eq_refl eq_refl) as [k [l [Hk [Hn [Hocc _]]]]].
  exists k, l. split; [exact Hk | split; [exact Hn | exact Hocc]].
Defined.

Lemma no_issue_iff_nothing_matches_witness :
  let details := Rule.make None (Some [("print", "Leftover print")])
                   None None in
  let self := mkReviewer [("style", details)] in
  let code := "x = 1" in
  example_parse code = ParseOk
  /\ registry_compiles model_compiles (rules self) = true
  /\ model_search "print" code true = false
  /\ fst (analyze_code example_parse model_compiles model_search code self)
     = Return [].
Proof.
  intros details self code. do 3 (split; [reflexivity|]).
  apply (proj2 (no_issue_iff_nothing_matches example_parse model_compiles
                  model_search self code eq_refl eq_refl)).
  split.
  - intros cat d pms pattern message [Hin | []] Hpms Hpm.
    injection Hin as <- <-. injection Hpms as <-.
    destruct Hpm as [Hpm | []]. injection Hpm as <- <-. reflexivity.
  - intros rule_info algorithm full_name Hrule. discriminate Hrule.
Defined.

Lemma empty_scaler_disables_scaling_rule_witness :
  let rule_info :=
    Rule.make None None (Some [("KMeans", "K-Means")]) (Some [""]) in
  let self := mkReviewer [("feature_scaling", rule_info)] in
  let code := "m = KMeans()" in
  dict_lookup "feature_scaling" (rules self) = Some rule_info
  /\ registry_compiles model_compiles (rules self) = true
  /\ In "" (get_or (Rule.scalers rule_info) [])
  /\ fst (_detect_scaling_issues model_compiles model_search code
            (splitlines code) self)
     = Return [].
Proof.
  intros rule_info self code.
  assert (Hin : In "" (get_or (Rule.scalers rule_info) []))
    by (left; reflexivity).
  do 2 (split; [reflexivity|]). split; [exact Hin|].
  exact (empty_scaler_disables_scaling_rule model_compiles model_search self
           code (splitlines code) rule_info eq_refl eq_refl Hin).
Defined.
